(** * woo-mcp-server: the bridge correlation layer and the session registry

    A shallow embedding of the server: the [local_bridge] tool handler
    (reply correlation over the single [/bridge] WebSocket), the
    [wss.on("connection")] handler that owns [localBridge], and the three
    [/mcp] routes that own the [sessions] map.  The definitions follow
    [src/server.js]; where [src/unnamed/part_001] differs (literals, the
    [cwd] wire field) the difference is a case on [Bridge.source].

    The program is event driven and single threaded.  Every synchronous
    stretch of JavaScript is one function on an explicit state; the places
    where the source [await]s are the places where the model lets other
    events run in between.  Console output is not part of the state.
    JSON numbers are integers here, which is what [Date.now()] yields. *)

From stdpp Require Import gmap strings list.
From Stdlib Require Import ZArith Lia.

Set Warnings "-register-all".

(** ** JavaScript values, as far as the handlers look at them *)

Module Js.

(** A value as [JSON.parse] can produce it, plus [undefined], which a
    missing property reads as.  Objects are association lists in key order. *)
Inductive value : Type :=
| VUndefined
| VNull
| VBool (b : bool)
| VNum (n : Z)
| VStr (s : string)
| VArr (items : list value)
| VObj (fields : list (string * value)).

Inductive exn : Type :=
| SyntaxError
| TypeError
| Error (message : string).

#[global] Instance exn_eq_dec : EqDecision exn.
Proof. solve_decision. Defined.

(** The outcome of running a piece of synchronous code. *)
Inductive completion (A : Type) : Type :=
| Normal (a : A)
| Throw (e : exn).
Arguments Normal {A} a.
Arguments Throw {A} e.

#[global] Instance completion_bind : MBind completion :=
  fun A B f c => match c with Normal a => f a | Throw e => Throw e end.

(** [ToBoolean]: what [!x], [x && y] and [x || y] test. *)
Definition truthy (v : value) : bool :=
  match v with
  | VUndefined | VNull => false
  | VBool b => b
  | VNum n => negb (n =? 0)%Z
  | VStr s => negb (String.eqb s "")
  | VArr _ | VObj _ => true
  end.

(** [a || b] on values both of which are already evaluated (neither
    operand has a side effect in this program). *)
Definition or (a b : value) : value := if truthy a then a else b.

Fixpoint lookup_field (k : string) (fields : list (string * value)) : value :=
  match fields with
  | [] => VUndefined
  | (k', v) :: rest => if String.eqb k k' then v else lookup_field k rest
  end.

(** [v.k] for the keys this program reads ([id], [type], [result], [error],
    [action], [command], [path], [content]): reading a property of [null] or
    [undefined] throws, of any other primitive or of an array yields
    [undefined]. *)
Definition get (v : value) (k : string) : completion value :=
  match v with
  | VUndefined | VNull => Throw TypeError
  | VObj fields => Normal (lookup_field k fields)
  | _ => Normal VUndefined
  end.

(** [v?.k] *)
Definition get_opt (v : value) (k : string) : value :=
  match v with
  | VObj fields => lookup_field k fields
  | _ => VUndefined
  end.

(** [a === b].  Arrays and objects compare by reference; a freshly parsed
    one is never identical to anything the program already holds. *)
Definition strict_equals (a b : value) : bool :=
  match a, b with
  | VUndefined, VUndefined => true
  | VNull, VNull => true
  | VBool x, VBool y => Bool.eqb x y
  | VNum x, VNum y => (x =? y)%Z
  | VStr x, VStr y => String.eqb x y
  | _, _ => false
  end.

(** Text the program builds.  Calls into [JSON.stringify] stay symbolic. *)
Inductive text : Type :=
| Lit (s : string)
| Stringify (v : value)
| StringifyIndent (v : value) (indent : Z).

(** What arrives on a socket: [JSON.parse(data.toString())] either throws
    or yields a value. *)
Inductive frame : Type :=
| Unparsable (raw : string)
| Json (v : value).

Definition JSON_parse (d : frame) : completion value :=
  match d with
  | Unparsable _ => Throw SyntaxError
  | Json v => Normal v
  end.

End Js.

Import Js.

(** ** The bridge: [localBridge], its listeners, the promises and timers *)

Module Bridge.

(** Identity of a WebSocket object. *)
Definition handle := nat.

(** A function registered with [ws.on("message", _)].  [OnMessage] is the
    arrow function of the connection handler; [Handler n id] is the closure
    [handler] created by the [n]-th bridged call, which captured [id],
    [timeout] and [resolve] of that call. *)
Inductive listener : Type :=
| OnMessage
| Handler (n : nat) (id : Z).

#[global] Instance listener_eq_dec : EqDecision listener.
Proof. solve_decision. Defined.

Record socket : Type := mkSocket {
  readyState : Z;
  message_listeners : list listener;
  close_listener : bool;
  sent : list text
}.

Inductive settlement : Type :=
| Pending
| Resolved (v : value)
| Rejected (e : exn).

Record state : Type := mkState {
  localBridge : option handle;
  sockets : gmap handle socket;
  promises : gmap nat settlement;
  timers : list (nat * Z);
  clock : Z;
  next : nat
}.

Definition initial : state :=
  {| localBridge := None; sockets := ∅; promises := ∅; timers := [];
     clock := 0; next := 0 |}.

Definition set_localBridge (b : option handle) (s : state) : state :=
  {| localBridge := b; sockets := sockets s; promises := promises s;
     timers := timers s; clock := clock s; next := next s |}.

Definition set_sockets (m : gmap handle socket) (s : state) : state :=
  {| localBridge := localBridge s; sockets := m; promises := promises s;
     timers := timers s; clock := clock s; next := next s |}.

Definition set_promises (m : gmap nat settlement) (s : state) : state :=
  {| localBridge := localBridge s; sockets := sockets s; promises := m;
     timers := timers s; clock := clock s; next := next s |}.

Definition set_timers (l : list (nat * Z)) (s : state) : state :=
  {| localBridge := localBridge s; sockets := sockets s;
     promises := promises s; timers := l; clock := clock s; next := next s |}.

Definition set_clock (t : Z) (s : state) : state :=
  {| localBridge := localBridge s; sockets := sockets s;
     promises := promises s; timers := timers s; clock := t; next := next s |}.

Definition set_next (n : nat) (s : state) : state :=
  {| localBridge := localBridge s; sockets := sockets s;
     promises := promises s; timers := timers s; clock := clock s; next := n |}.

(** *** EventEmitter *)

Definition add_listener (l : listener) (k : socket) : socket :=
  {| readyState := readyState k;
     message_listeners := message_listeners k ++ [l];
     close_listener := close_listener k; sent := sent k |}.

Fixpoint remove_first (l : listener) (ls : list listener) : list listener :=
  match ls with
  | [] => []
  | x :: rest => if decide (x = l) then rest else x :: remove_first l rest
  end.

(** [removeListener] drops the most recently added occurrence. *)
Definition remove_last (l : listener) (ls : list listener) : list listener :=
  reverse (remove_first l (reverse ls)).

Definition drop_listener (l : listener) (k : socket) : socket :=
  {| readyState := readyState k;
     message_listeners := remove_last l (message_listeners k);
     close_listener := close_listener k; sent := sent k |}.

Definition push_sent (t : text) (k : socket) : socket :=
  {| readyState := readyState k; message_listeners := message_listeners k;
     close_listener := close_listener k; sent := sent k ++ [t] |}.

Definition set_readyState (r : Z) (k : socket) : socket :=
  {| readyState := r; message_listeners := message_listeners k;
     close_listener := close_listener k; sent := sent k |}.

Definition set_close_listener (k : socket) : socket :=
  {| readyState := readyState k; message_listeners := message_listeners k;
     close_listener := true; sent := sent k |}.

(** [ws.on("message", l)] *)
Definition on_message (ws : handle) (l : listener) (s : state) : state :=
  set_sockets (alter (add_listener l) ws (sockets s)) s.

(** [ws.removeListener("message", l)] *)
Definition removeListener (ws : handle) (l : listener) (s : state) : state :=
  set_sockets (alter (drop_listener l) ws (sockets s)) s.

(** [ws.send(t)] on an open socket *)
Definition send (ws : handle) (t : text) (s : state) : state :=
  set_sockets (alter (push_sent t) ws (sockets s)) s.

(** *** Promises and timers *)

(** [resolve] and [reject] act on a promise that is still pending and are
    ignored afterwards. *)
Definition settle (n : nat) (o : settlement) (s : state) : state :=
  match promises s !! n with
  | Some Pending => set_promises (<[n := o]> (promises s)) s
  | _ => s
  end.

Definition resolve (n : nat) (v : value) : state -> state :=
  settle n (Resolved v).

Definition reject (n : nat) (e : exn) : state -> state :=
  settle n (Rejected e).

(** [setTimeout(cb, delay)] for the timer of call [n]; the list keeps the
    timers that are armed, each with its deadline. *)
Definition setTimeout (n : nat) (delay : Z) (s : state) : state :=
  set_timers (timers s ++ [(n, (clock s + delay)%Z)]) s.

Definition clearTimeout (n : nat) (s : state) : state :=
  set_timers (filter (fun tm => tm.1 ≠ n) (timers s)) s.

(** *** Configuration *)

(** [process.env.BRIDGE_KEY || "woo-local-2026"] *)
Definition BRIDGE_KEY (env : option string) : string :=
  match env with
  | Some k => if String.eqb k "" then "woo-local-2026" else k
  | None => "woo-local-2026"
  end.

(** *** [wss.on("connection", (ws, req) => ...)] *)

(** The socket object the WebSocketServer hands to the handler: open, with
    no listener of the program's yet. *)
Definition new_socket : socket :=
  {| readyState := 1; message_listeners := []; close_listener := false;
     sent := [] |}.

(** [ws.close(4001, "Invalid key")] starts the closing handshake. *)
Definition ws_close (ws : handle) (s : state) : state :=
  set_sockets (alter (set_readyState 2) ws (sockets s)) s.

(** The handler proper; [key] is [req.headers["x-bridge-key"]]. *)
Definition connection (env : option string) (ws : handle)
    (key : option string) (s : state) : state :=
  if decide (key = Some (BRIDGE_KEY env)) then
    let s1 := set_localBridge (Some ws) s in
    let s2 := on_message ws OnMessage s1 in
    set_sockets (alter set_close_listener ws (sockets s2)) s2
  else ws_close ws s.

(** A client connects to [/bridge]: the server creates the socket object
    [ws] and emits ["connection"]. *)
Definition accept (env : option string) (ws : handle) (key : option string)
    (s : state) : state :=
  connection env ws key (set_sockets (<[ws := new_socket]> (sockets s)) s).

(** [ws.on("close", () => { if (localBridge === ws) localBridge = null })].
    The socket is CLOSED (3) by the time the event is emitted. *)
Definition on_close (ws : handle) (s : state) : state :=
  if decide (localBridge s = Some ws) then set_localBridge None s else s.

Definition emit_close (ws : handle) (s : state) : state :=
  let s1 := set_sockets (alter (set_readyState 3) ws (sockets s)) s in
  match sockets s !! ws with
  | Some k => if close_listener k then on_close ws s1 else s1
  | None => s1
  end.

(** *** The two kinds of message listener *)

(** Whether converting [v] to a string, as a template literal does,
    throws.  An object that [JSON.parse] made has no callable property, so
    an own [toString] hides the inherited one and leaves nothing to call
    ([valueOf] yields the object itself); an array joins the strings of
    its elements; every other value converts. *)
Fixpoint to_string_throws (v : value) : bool :=
  match v with
  | VObj fields => existsb (fun kv => String.eqb (fst kv) "toString") fields
  | VArr items => existsb to_string_throws items
  | _ => false
  end.

(** [(data) => { const msg = JSON.parse(data.toString());
                 if (msg.type === "register")
                   console.log(`  PC: ${msg.hostname} (${msg.platform})`) }].
    The line printed is not part of the state; building it can throw. *)
Definition on_message_body (d : frame) (s : state) : completion state :=
  msg ← JSON_parse d;
  ty ← get msg "type";
  if strict_equals ty (VStr "register") then
    hostname ← get msg "hostname";
    if to_string_throws hostname then Throw TypeError
    else
      platform ← get msg "platform";
      if to_string_throws platform then Throw TypeError else Normal s
  else Normal s.

(** [handler] of the bridged call [n] with correlation id [id]. *)
Definition handler (n : nat) (id : Z) (d : frame) (s : state)
    : completion state :=
  msg ← JSON_parse d;
  mid ← get msg "id";
  if strict_equals mid (VNum id) then
    match localBridge s with
    | None => Throw TypeError
    | Some ws =>
        let s1 := removeListener ws (Handler n id) s in
        let s2 := clearTimeout n s1 in
        r ← get msg "result";
        e ← get msg "error";
        Normal (resolve n (Js.or r e) s2)
    end
  else Normal s.

Definition run_listener (l : listener) (d : frame) (s : state)
    : completion state :=
  match l with
  | OnMessage => on_message_body d s
  | Handler n id => handler n id d s
  end.

(** [emit] calls a copy of the listener array in order; a listener that
    throws ends the emit and the exception is uncaught. *)
Fixpoint call_listeners (ls : list listener) (d : frame) (s : state)
    : completion state :=
  match ls with
  | [] => Normal s
  | l :: rest => s' ← run_listener l d s; call_listeners rest d s'
  end.

Definition emit_message (ws : handle) (d : frame) (s : state)
    : completion state :=
  match sockets s !! ws with
  | Some k => call_listeners (message_listeners k) d s
  | None => Normal s
  end.

(** *** The [local_bridge] tool *)

Record tool_result : Type := mkResult {
  content : text;
  isError : bool
}.

(** How far the async handler got: it returned, or it is suspended on the
    promise of call [n]. *)
Inductive progress : Type :=
| Returned (r : tool_result)
| Awaiting (n : nat).

Definition Date_now (s : state) : Z := clock s.

(** [localBridge.readyState], [None] when [localBridge] is null. *)
Definition localBridge_readyState (s : state) : option Z :=
  ws ← localBridge s; k ← sockets s !! ws; Some (readyState k).

(** The repository holds two copies of the program with this tool:
    [src/server.js] and the later, compacted [src/unnamed/part_001].  They
    differ in the literals of the two failure texts, in the text built in
    [catch], and in one more field, [cwd], that [part_001] reads and sends. *)
Inductive source : Type :=
| server_js
| part_001.

Definition not_connected (src : source) : tool_result :=
  {| content :=
       Lit match src with
           | server_js =>
               "로컬 브릿지 미연결. PC에서 start-bridge.bat 실행하세요."
           | part_001 => "bridge not connected"
           end;
     isError := true |}.

Definition timeout_error (src : source) : exn :=
  Error match src with
        | server_js => "타임아웃 (15초)"
        | part_001 => "timeout 15s"
        end.

(** The object handed to [JSON.stringify] for sending:
    [{ id, action, command, path: filePath, content }], with [cwd] after
    [content] in [part_001].  [server_js] reads the arguments with [?.];
    [part_001] destructures an object its schema has validated. *)
Definition wire (src : source) (id : Z) (args : value) : value :=
  let action := get_opt args "action" in
  let command := get_opt args "command" in
  let filePath := get_opt args "path" in
  let content := get_opt args "content" in
  let cwd := get_opt args "cwd" in
  VObj ([("id", VNum id); ("action", action); ("command", command);
         ("path", filePath); ("content", content)] ++
        match src with
        | server_js => []
        | part_001 => [("cwd", cwd)]
        end).

(** The body up to the [await]. *)
Definition local_bridge (src : source) (args : value) (s : state)
    : progress * state :=
  match localBridge s, localBridge_readyState s with
  | Some ws, Some 1%Z =>
      let id := Date_now s in
      let n := next s in
      let s1 := set_next (S n) (set_promises (<[n := Pending]> (promises s)) s) in
      let s2 := setTimeout n 15000 s1 in
      let s3 := on_message ws (Handler n id) s2 in
      let s4 := send ws (Stringify (wire src id args)) s3 in
      (Awaiting n, s4)
  | _, _ => (Returned (not_connected src), s)
  end.

(** The body after the [await], once the promise of call [n] is settled:
    the [return] after it, or the [catch]. *)
Definition local_bridge_resume (src : source) (n : nat) (s : state)
    : option tool_result :=
  match promises s !! n with
  | Some (Resolved result) =>
      Some {| content := StringifyIndent result 2; isError := false |}
  | Some (Rejected err) =>
      let message := match err with Error m => m | _ => "" end in
      Some {| content :=
                Lit match src with
                    | server_js => "로컬 브릿지 에러: " +:+ message
                    | part_001 => message
                    end;
              isError := true |}
  | _ => None
  end.

(** *** Time *)

(** The timer callback of call [n]: [() => reject(new Error(...))]. *)
Definition timer_fire (src : source) (n : nat) (s : state) : state :=
  reject n (timeout_error src) (clearTimeout n s).

Definition due (now : Z) (tm : nat * Z) : bool := (tm.2 <=? now)%Z.

(** The clock reaches [t]; every timer whose deadline has passed runs. *)
Definition advance (src : source) (t : Z) (s : state) : state :=
  let s1 := set_clock (Z.max (clock s) t) s in
  foldl (fun acc tm => timer_fire src tm.1 acc) s1
        (List.filter (due (clock s1)) (timers s1)).

(** *** The event loop *)

(** One turn of the event loop changes the state in one of five ways: a
    client connects to [/bridge] and gets a new socket object, a socket
    closes, a message arrives on a socket and no listener throws, the tool
    is called, time passes.  An emit in which a listener throws is an
    uncaught exception and has no successor state. *)
Inductive step (env : option string) (src : source) : state -> state -> Prop :=
| step_accept s ws key :
    sockets s !! ws = None -> step env src s (accept env ws key s)
| step_close s ws :
    step env src s (emit_close ws s)
| step_message s ws d s' :
    emit_message ws d s = Normal s' -> step env src s s'
| step_call s args :
    step env src s (local_bridge src args s).2
| step_advance s t :
    step env src s (advance src t s).

Inductive reachable (env : option string) (src : source) : state -> Prop :=
| reachable_initial : reachable env src initial
| reachable_step s s' :
    reachable env src s -> step env src s s' -> reachable env src s'.


(** *** Vocabulary for the statements below *)

Definition nullish (v : value) : bool :=
  match v with
  | VUndefined | VNull => true
  | _ => false
  end.

(** The connection's own listener gets through the message [v]: it is not
    a register message, or its [hostname] and [platform] convert to
    strings. *)
Definition logs_cleanly (v : value) : bool :=
  negb (strict_equals (get_opt v "type") (VStr "register")) ||
  (negb (to_string_throws (get_opt v "hostname")) &&
   negb (to_string_throws (get_opt v "platform"))).

(** The listener is a pending handler whose [msg.id === id] test succeeds
    on the message [v]. *)
Definition answers (v : value) (l : listener) : bool :=
  match l with
  | OnMessage => false
  | Handler _ id => strict_equals (get_opt v "id") (VNum id)
  end.

(** [msg.result || msg.error] *)
Definition settled_value (v : value) : value :=
  Js.or (get_opt v "result") (get_opt v "error").

(** The two reply shapes of the wire protocol. *)
Definition reply_result (id : Z) (r : value) : value :=
  VObj [("id", VNum id); ("result", r)].

Definition reply_error (id : Z) (e : value) : value :=
  VObj [("id", VNum id); ("error", e)].

Definition listeners_of (ws : handle) (s : state) : list listener :=
  match sockets s !! ws with
  | Some k => message_listeners k
  | None => []
  end.

(** The bridge is attached and open. *)
Definition live (s : state) : Prop := localBridge_readyState s = Some 1%Z.

(** States the examples start from: the remote agent has connected as
    socket [0] with the default key; then one [ping] is in flight. *)
Definition key_ok : option string := Some "woo-local-2026".

Definition attached : state := accept None 0 key_ok initial.

Definition ping : value := VObj [("action", VStr "ping")].

Definition one_pending : state := (local_bridge server_js ping attached).2.

(** The state the call leaves when it suspends. *)
Definition issued (src : source) (args : value) (ws : handle) (s : state)
    : state :=
  send ws (Stringify (wire src (clock s) args))
    (on_message ws (Handler (next s) (clock s))
       (setTimeout (next s) 15000
          (set_next (S (next s))
             (set_promises (<[next s := Pending]> (promises s)) s)))).

(** A complete exchange with nothing else in flight: the call, one inbound
    frame on the bridge socket, then the rest of the handler. *)
Definition exchange (src : source) (args : value) (d : frame) (s : state)
    : option tool_result :=
  match local_bridge src args s with
  | (Returned r, _) => Some r
  | (Awaiting n, s1) =>
      match localBridge s1 with
      | Some ws =>
          match emit_message ws d s1 with
          | Normal s2 => local_bridge_resume src n s2
          | Throw _ => None
          end
      | None => None
      end
  end.

End Bridge.

(** ** The [/mcp] routes and the [sessions] map *)

Module Http.

(** A [StreamableHTTPServerTransport].  The class belongs to the SDK, not to
    this repository; the model keeps what the routes read and set:
    [sessionId] (assigned by the SDK while it handles an initialize request,
    never cleared), whether the transport has closed, and whether the
    [onclose] callback of the POST route is installed. *)
Record transport : Type := mkTransport {
  sessionId : option string;
  closed : bool;
  onclose : bool
}.

Record state : Type := mkState {
  sessions : gmap string nat;
  transports : list transport
}.

Definition initial : state := {| sessions := ∅; transports := [] |}.

Definition set_sessions (m : gmap string nat) (s : state) : state :=
  {| sessions := m; transports := transports s |}.

Definition set_transports (l : list transport) (s : state) : state :=
  {| sessions := sessions s; transports := l |}.

Record request : Type := mkRequest {
  authorization : option string;
  mcp_session_id : option string
}.

Inductive response : Type :=
| Reply (status : Z) (body : value)
| Handled (t : nat).

(** [process.env.MCP_AUTH_TOKEN || ""] *)
Definition AUTH_TOKEN (env : option string) : string := default "" env.

(** The middleware: [None] is [next()]. *)
Definition authenticate (env : option string) (req : request)
    : option response :=
  if String.eqb (AUTH_TOKEN env) "" then None
  else if decide (authorization req = Some ("Bearer " +:+ AUTH_TOKEN env))
  then None
  else Some (Reply 401 (VObj [("error", VStr "Unauthorized")])).

(** [sessionId && sessions.has(sessionId)], giving [sessions.get(sessionId)]
    when it holds. *)
Definition known (sid : option string) (s : state) : option nat :=
  match sid with
  | Some k => if String.eqb k "" then None else sessions s !! k
  | None => None
  end.

Definition fresh_transport : transport :=
  {| sessionId := None; closed := false; onclose := true |}.

(** POST, up to [await transport.handleRequest(...)]: the transport the
    request is dispatched to. *)
Definition post_enter (req : request) (s : state) : nat * state :=
  match known (mcp_session_id req) s with
  | Some t => (t, s)
  | None =>
      (length (transports s),
       set_transports (transports s ++ [fresh_transport]) s)
  end.

(** What [handleRequest] does to the transport on an initialize request:
    [sessionIdGenerator()] names the session. *)
Definition initialize (t : nat) (uuid : string) (s : state) : state :=
  match transports s !! t with
  | Some tr =>
      match sessionId tr with
      | None =>
          set_transports
            (<[t := {| sessionId := Some uuid; closed := closed tr;
                       onclose := onclose tr |}]> (transports s)) s
      | Some _ => s
      end
  | None => s
  end.

(** POST, after the [await]:
    [if (transport.sessionId && !sessions.has(transport.sessionId))
       sessions.set(transport.sessionId, transport)]. *)
Definition post_leave (t : nat) (s : state) : state :=
  match transports s !! t with
  | Some tr =>
      match sessionId tr with
      | Some sid =>
          if negb (String.eqb sid "") && bool_decide (sessions s !! sid = None)
          then set_sessions (<[sid := t]> (sessions s)) s
          else s
      | None => s
      end
  | None => s
  end.

(** The transport closes and runs its [onclose]:
    [const sid = transport.sessionId; if (sid) sessions.delete(sid)]. *)
Definition close (t : nat) (s : state) : state :=
  match transports s !! t with
  | Some tr =>
      let s1 :=
        set_transports
          (<[t := {| sessionId := sessionId tr; closed := true;
                     onclose := onclose tr |}]> (transports s)) s in
      if onclose tr then
        match sessionId tr with
        | Some sid =>
            if String.eqb sid "" then s1
            else set_sessions (delete sid (sessions s1)) s1
        | None => s1
        end
      else s1
  | None => s
  end.

Definition no_session : response :=
  Reply 400 (VObj [("error", VStr "세션이 없습니다")]).

(** GET *)
Definition get_mcp (req : request) (s : state) : response :=
  match known (mcp_session_id req) s with
  | Some t => Handled t
  | None => no_session
  end.

Definition ok_true : response := Reply 200 (VObj [("ok", VBool true)]).

(** DELETE, up to the end of [await transport.close()]: whether the branch
    was taken. *)
Definition delete_enter (req : request) (s : state) : bool * state :=
  match known (mcp_session_id req) s with
  | Some t => (true, close t s)
  | None => (false, s)
  end.

(** DELETE, after the [await]. *)
Definition delete_leave (req : request) (taken : bool) (s : state)
    : response * state :=
  (ok_true,
   if taken then
     match mcp_session_id req with
     | Some sid => set_sessions (delete sid (sessions s)) s
     | None => s
     end
   else s).

(** DELETE with nothing else running during its [await]. *)
Definition delete_mcp (req : request) (s : state) : response * state :=
  let '(taken, s1) := delete_enter req s in delete_leave req taken s1.

(** [app.get("/mcp", authenticate, ...)] and
    [app.delete("/mcp", authenticate, ...)] as Express runs them. *)
Definition app_get (env : option string) (req : request) (s : state)
    : response :=
  match authenticate env req with
  | Some r => r
  | None => get_mcp req s
  end.

Definition app_delete (env : option string) (req : request) (s : state)
    : response * state :=
  match authenticate env req with
  | Some r => (r, s)
  | None => delete_mcp req s
  end.

(** The registry invariant of the specification: a registered session id
    names a transport that has not closed. *)
Definition registered_open (s : state) : Prop :=
  forall sid t, sessions s !! sid = Some t ->
    exists tr, transports s !! t = Some tr /\ closed tr = false.

(** What the routes keep true of the registry as long as no request is
    suspended across a closure: an entry names an open transport that
    carries the entry's own, non-empty, id and has [onclose] installed. *)
Definition consistent (s : state) : Prop :=
  forall sid t, sessions s !! sid = Some t ->
    sid <> "" /\
    exists tr, transports s !! t = Some tr /\ closed tr = false /\
               sessionId tr = Some sid /\ onclose tr = true.

(** Requests used in the examples. *)
Definition anonymous : request :=
  {| authorization := None; mcp_session_id := None |}.

Definition bearing (sid : string) : request :=
  {| authorization := None; mcp_session_id := Some sid |}.

End Http.

(** ** The local tools: [exec], [read_file], [http_request] *)

Module Tools.

Import Bridge.

(** A string the tools cut with [slice] is kept as the sequence of its
    UTF-16 code units, which is what [slice] counts. *)
Definition units : Type := list N.

(** A property value of an object the tools hand to [JSON.stringify]. *)
Inductive jfield : Type :=
| FNum (n : Z)
| FUnits (u : units).

(** Text of a tool result; concatenation and [JSON.stringify] stay
    symbolic. *)
Inductive ttext : Type :=
| TLit (s : string)
| TUnits (u : units)
| TJson (v : value)
| TJsonObject (fields : list (string * jfield))
| TCat (a b : ttext).

Record result : Type := mkResult {
  content : ttext;
  isError : bool
}.

(** A string is its sequence of code units. *)
Fixpoint starts_with (p s : string) : bool :=
  match p, s with
  | EmptyString, _ => true
  | String a p', String b s' => Ascii.eqb a b && starts_with p' s'
  | String _ _, EmptyString => false
  end.

(** [s.includes(b)] on strings *)
Fixpoint includes (s b : string) : bool :=
  starts_with b s ||
  match s with
  | EmptyString => false
  | String _ s' => includes s' b
  end.

(** [s.slice(0, n)] for a literal [n >= 0]: the first [n] code units. *)
Definition slice (n : Z) (u : units) : units := take (Z.to_nat n) u.

(** [command.includes(b)] for whatever [command] is: a string searches for
    a substring, an array for an element, any other value has no
    [includes] to call, and [null] and [undefined] have no properties. *)
Definition value_includes (command : value) (b : string) : completion bool :=
  match command with
  | VStr s => Normal (includes s b)
  | VArr items => Normal (existsb (fun x => strict_equals x (VStr b)) items)
  | _ => Throw TypeError
  end.

(** [blocked.some((b) => command.includes(b))] *)
Fixpoint some_blocked (command : value) (blocked : list string)
    : completion bool :=
  match blocked with
  | [] => Normal false
  | b :: rest =>
      hit ← value_includes command b;
      if hit : bool then Normal true else some_blocked command rest
  end.

Definition blocked (src : source) : list string :=
  ["rm -rf /"; "mkfs"; "dd if="; ":(){ :"; "shutdown"; "reboot"] ++
  match src with
  | server_js => ["format"]
  | part_001 => []
  end.

(** *** [exec] *)

(** How far the handler got: it returned, or it awaits
    [execAsync(command, { timeout, maxBuffer })]. *)
Inductive exec_progress : Type :=
| ExecReturned (r : result)
| ExecAwaiting (command timeout : value) (maxBuffer : Z).

Definition blocked_result (src : source) : result :=
  {| content :=
       TLit match src with
            | server_js => "차단된 명령어입니다."
            | part_001 => "blocked"
            end;
     isError := true |}.

(** The handler up to the [await].  Only [server_js] has the first line,
    which answers a missing or empty command with a debug text. *)
Definition exec_enter (src : source) (args : value)
    : completion exec_progress :=
  let command := get_opt args "command" in
  let timeout := get_opt args "timeout" in
  match src, truthy command with
  | server_js, false =>
      Normal (ExecReturned
                {| content := TCat (TLit "DEBUG: args=") (TJson args);
                   isError := false |})
  | _, _ =>
      hit ← some_blocked command (blocked src);
      if hit : bool then Normal (ExecReturned (blocked_result src))
      else Normal (ExecAwaiting command (Js.or timeout (VNum 10000))
                     (1024 * 1024))
  end.

(** What [execAsync] settles with. *)
Inductive exec_outcome : Type :=
| ExecOk (stdout stderr : units)
| ExecFailed (message : string).

(** The handler after the [await]. *)
Definition exec_resume (src : source) (o : exec_outcome) : result :=
  match o with
  | ExecOk stdout stderr =>
      {| content :=
           TJsonObject [("stdout", FUnits (slice 5000 stdout));
                        ("stderr", FUnits (slice 2000 stderr))];
         isError := false |}
  | ExecFailed message =>
      {| content :=
           TLit match src with
                | server_js => "에러: " +:+ message
                | part_001 => message
                end;
         isError := true |}
  end.

(** *** [read_file] *)

(** What [fs.readFile(filePath, "utf-8")] settles with. *)
Inductive read_outcome : Type :=
| ReadOk (content : units)
| ReadFailed (message : string).

(** The handler awaits [fs.readFile] on [args?.path] at once; this is the
    rest of it. *)
Definition read_file_resume (src : source) (o : read_outcome) : result :=
  match o with
  | ReadOk content =>
      {| content := TUnits (slice 10000 content); isError := false |}
  | ReadFailed message =>
      {| content :=
           TLit match src with
                | server_js => "파일 읽기 실패: " +:+ message
                | part_001 => message
                end;
         isError := true |}
  end.

(** *** [http_request] *)

(** The second argument of [fetch]; [body] is there only when the handler
    assigned [opts.body]. *)
Record fetch_options : Type := mkOptions {
  method : value;
  headers : value;
  body : option value
}.

Inductive http_progress : Type :=
| HttpReturned (r : result)
| HttpAwaiting (url : value) (opts : fetch_options).

Definition http_failed (src : source) (message : string) : result :=
  {| content :=
       TLit match src with
            | server_js => "HTTP 요청 실패: " +:+ message
            | part_001 => message
            end;
     isError := true |}.

(** The handler up to [await fetch(url, opts)].  [parse] is [JSON.parse]
    on the [headers] argument: the parsed value, or the message of the
    error it throws, which the [catch] turns into the result. *)
Definition http_request_enter (src : source)
    (parse : value -> string + value) (args : value) : http_progress :=
  let url := get_opt args "url" in
  let method := get_opt args "method" in
  let headers := get_opt args "headers" in
  let body := get_opt args "body" in
  match (if truthy headers then parse headers else inr (VObj [])) with
  | inl message => HttpReturned (http_failed src message)
  | inr parsed =>
      HttpAwaiting url
        {| method := Js.or method (VStr "GET");
           headers := parsed;
           body :=
             if truthy body && negb (strict_equals method (VStr "GET"))
             then Some body else None |}
  end.

(** What [fetch] followed by [resp.text()] settles with. *)
Inductive http_outcome : Type :=
| HttpOk (status : Z) (text : units)
| HttpFailed (message : string).

Definition http_request_resume (src : source) (o : http_outcome) : result :=
  match o with
  | HttpOk status text =>
      {| content :=
           TJsonObject [("status", FNum status);
                        ("body", FUnits (slice 8000 text))];
         isError := false |}
  | HttpFailed message => http_failed src message
  end.

End Tools.

(** ** Whole requests and whole runs *)

Module Runs.

Import Bridge Http.

(** [app.post("/mcp", authenticate, ...)] up to the [await]: the gate, then
    the handler. *)
Definition app_post_enter (env : option string) (req : request)
    (s : Http.state) : response + nat * Http.state :=
  match authenticate env req with
  | Some r => inl r
  | None => inr (post_enter req s)
  end.

Definition unauthorized : response :=
  Reply 401 (VObj [("error", VStr "Unauthorized")]).

(** A POST during whose [await] nothing else runs; [uuid] is the id the
    SDK generates when the request is an initialize request. *)
Definition post_mcp (req : request) (uuid : option string) (s : Http.state)
    : Http.state :=
  let '(t, s1) := post_enter req s in
  let s2 := match uuid with Some u => initialize t u s1 | None => s1 end in
  post_leave t s2.

(** Runs of the three routes in which no request is suspended while
    another one runs. *)
Inductive http_step : Http.state -> Http.state -> Prop :=
| http_post req uuid s : http_step s (post_mcp req uuid s)
| http_delete req s : http_step s (delete_mcp req s).2
| http_close t s : http_step s (close t s).

Inductive http_reachable : Http.state -> Prop :=
| http_reachable_initial : http_reachable Http.initial
| http_reachable_step s s' :
    http_reachable s -> http_step s s' -> http_reachable s'.

(** States for the examples: a second agent has connected while the call
    of [one_pending] is in flight on socket [0]; then that second agent has
    gone again, which empties [localBridge]. *)
Definition displaced : Bridge.state := accept None 1 key_ok one_pending.

Definition detached : Bridge.state := emit_close 1 displaced.

(** Every promise and every armed timer belongs to a call that has been
    issued. *)
Definition numbered (s : Bridge.state) : Prop :=
  (forall n, is_Some (promises s !! n) -> n < next s) /\
  (forall n dl, (n, dl) ∈ timers s -> n < next s).

End Runs.

(** ** Facts about the bridge *)

Import Bridge.

Section BridgeLemmas.

Implicit Types (s : Bridge.state) (ws : handle) (v : value) (l : listener)
  (ls : list listener) (n : nat) (x : Z) (src : source).

Lemma get_nonnull v (k : string) :
  nullish v = false -> get v k = Normal (get_opt v k).
Proof. destruct v; simpl; intros H; (discriminate || reflexivity). Qed.

Lemma strict_equals_num v x :
  strict_equals v (VNum x) = true <-> v = VNum x.
Proof.
  destruct v; simpl; split; try discriminate; intros H.
  - apply Z.eqb_eq in H. congruence.
  - injection H as ->. apply Z.eqb_refl.
Qed.

Lemma answers_handler v n x :
  answers v (Handler n x) = true <-> get_opt v "id" = VNum x.
Proof. apply strict_equals_num. Qed.

Lemma bind_Normal {A B : Type} (a : A) (f : A -> completion B) :
  (Normal a ≫= f) = f a.
Proof. reflexivity. Qed.

(** Run the property reads and binds of a listener body on a message that
    is neither [null] nor [undefined]. *)
Ltac js_reads Hv :=
  repeat first [ rewrite bind_Normal | rewrite (get_nonnull _ _ Hv) ].

(** The connection's listener on a message it gets through. *)
Lemma on_message_clean v s :
  nullish v = false -> logs_cleanly v = true ->
  on_message_body (Json v) s = Normal s.
Proof.
  intros Hv Hq. unfold on_message_body.
  change (JSON_parse (Json v)) with (Normal v). js_reads Hv.
  unfold logs_cleanly in Hq.
  destruct (strict_equals (get_opt v "type") (VStr "register"));
    [|reflexivity].
  simpl in Hq. apply andb_prop in Hq as [Hh Hp].
  apply negb_true_iff in Hh. apply negb_true_iff in Hp.
  js_reads Hv. rewrite Hh. js_reads Hv. rewrite Hp. reflexivity.
Qed.

(** On any parsed message it either changes nothing or throws
    [TypeError]. *)
Lemma on_message_outcome v s :
  on_message_body (Json v) s = Normal s \/
  on_message_body (Json v) s = Throw TypeError.
Proof.
  unfold on_message_body. change (JSON_parse (Json v)) with (Normal v).
  rewrite bind_Normal. destruct (nullish v) eqn:Hv.
  - right. destruct v; try discriminate; reflexivity.
  - js_reads Hv.
    destruct (strict_equals (get_opt v "type") (VStr "register")); [|auto].
    js_reads Hv. destruct (to_string_throws (get_opt v "hostname")); [auto|].
    js_reads Hv. destruct (to_string_throws (get_opt v "platform")); auto.
Qed.

(** When it completes, it has changed nothing. *)
Lemma on_message_body_state (d : frame) s s' :
  on_message_body d s = Normal s' -> s' = s.
Proof.
  destruct d as [raw|v]; [discriminate|].
  destruct (on_message_outcome v s) as [-> | ->]; [|discriminate].
  intros [= <-]. reflexivity.
Qed.

(** A listener that does not answer [v] leaves the whole state alone. *)
Lemma run_listener_skip l v s :
  nullish v = false -> logs_cleanly v = true -> answers v l = false ->
  run_listener l (Json v) s = Normal s.
Proof.
  intros Hv Hq Ha. destruct l as [|n x]; unfold run_listener.
  - apply on_message_clean; assumption.
  - unfold handler. change (JSON_parse (Json v)) with (Normal v).
    js_reads Hv. unfold answers in Ha. rewrite Ha. reflexivity.
Qed.


Lemma call_listeners_cons l ls (d : frame) s :
  call_listeners (l :: ls) d s = (run_listener l d s ≫= call_listeners ls d).
Proof. reflexivity. Qed.

Lemma call_listeners_app ls1 ls2 (d : frame) s :
  call_listeners (ls1 ++ ls2) d s =
  (call_listeners ls1 d s ≫= call_listeners ls2 d).
Proof.
  revert s. induction ls1 as [|l ls1 IH]; intros s; simpl; [reflexivity|].
  destruct (run_listener l d s) as [s'|e]; simpl; [apply IH|reflexivity].
Qed.

(** What an answering handler does when the bridge is attached. *)
Lemma run_listener_answer n x v s ws :
  nullish v = false -> get_opt v "id" = VNum x -> localBridge s = Some ws ->
  run_listener (Handler n x) (Json v) s =
  Normal (resolve n (settled_value v)
            (clearTimeout n (removeListener ws (Handler n x) s))).
Proof.
  intros Hv Hid Hb. unfold run_listener, handler.
  change (JSON_parse (Json v)) with (Normal v).
  js_reads Hv. rewrite Hid. unfold strict_equals. rewrite Z.eqb_refl, Hb.
  js_reads Hv. reflexivity.
Qed.

Lemma id_nonnull v x : get_opt v "id" = VNum x -> nullish v = false.
Proof. destruct v; simpl; intros H; (discriminate || reflexivity). Qed.

(** *** [removeListener] on a listener array *)



Lemma remove_first_absent l ls : l ∉ ls -> remove_first l ls = ls.
Proof.
  induction ls as [|y ls IH]; simpl; [reflexivity|]. intros H.
  apply not_elem_of_cons in H as [Hne Hls].
  destruct (decide (y = l)) as [->|_]; [congruence|]. f_equal. auto.
Qed.



Lemma remove_last_absent l ls : l ∉ ls -> remove_last l ls = ls.
Proof.
  intros H. unfold remove_last. rewrite remove_first_absent.
  - apply reverse_involutive.
  - rewrite elem_of_reverse. exact H.
Qed.



(** *** Which operation touches which part of the state *)

Lemma settle_next n (o : settlement) s : next (settle n o s) = next s.
Proof. unfold settle. destruct (promises s !! n) as [[]|]; reflexivity. Qed.

Lemma settle_sockets n (o : settlement) s : sockets (settle n o s) = sockets s.
Proof. unfold settle. destruct (promises s !! n) as [[]|]; reflexivity. Qed.

Lemma settle_localBridge n (o : settlement) s :
  localBridge (settle n o s) = localBridge s.
Proof. unfold settle. destruct (promises s !! n) as [[]|]; reflexivity. Qed.

Lemma settle_timers n (o : settlement) s : timers (settle n o s) = timers s.
Proof. unfold settle. destruct (promises s !! n) as [[]|]; reflexivity. Qed.

Lemma settle_pending n (o : settlement) s :
  promises s !! n = Some Pending -> promises (settle n o s) !! n = Some o.
Proof. intros H. unfold settle. rewrite H. simpl. apply lookup_insert_eq. Qed.

Lemma settle_settled n (o : settlement) s :
  promises s !! n <> Some Pending -> settle n o s = s.
Proof.
  intros H. unfold settle. destruct (promises s !! n) as [[]|]; congruence.
Qed.

Lemma settle_other n m (o : settlement) s :
  n <> m -> promises (settle n o s) !! m = promises s !! m.
Proof.
  intros H. unfold settle. destruct (promises s !! n) as [[]|]; try reflexivity.
  simpl. apply lookup_insert_ne. exact H.
Qed.


Lemma emit_message_listeners ws (d : frame) s :
  emit_message ws d s = call_listeners (listeners_of ws s) d s.
Proof.
  unfold emit_message, listeners_of. destruct (sockets s !! ws); reflexivity.
Qed.



Lemma settled_value_result x (r : value) :
  truthy r = true -> settled_value (reply_result x r) = r.
Proof. intros H. unfold settled_value, Js.or. simpl. rewrite H. reflexivity. Qed.

Lemma settled_value_error x (e : value) : settled_value (reply_error x e) = e.
Proof. reflexivity. Qed.

(** *** The call on a live bridge *)

Lemma live_inv s :
  live s ->
  exists ws k, localBridge s = Some ws /\ sockets s !! ws = Some k /\
               readyState k = 1%Z.
Proof.
  unfold live, localBridge_readyState. intros H.
  destruct (localBridge s) as [ws|]; [|discriminate]. simpl in H.
  destruct (sockets s !! ws) as [k|] eqn:Hk; [|discriminate]. simpl in H.
  exists ws, k. split; [reflexivity|]. split; [exact Hk|].
  injection H as H. exact H.
Qed.

Lemma local_bridge_live src s (args : value) ws k :
  localBridge s = Some ws -> sockets s !! ws = Some k ->
  readyState k = 1%Z ->
  local_bridge src args s = (Awaiting (next s), issued src args ws s).
Proof.
  intros Hb Hk Hr. unfold local_bridge, localBridge_readyState.
  rewrite Hb. simpl. rewrite Hk. simpl. rewrite Hr. reflexivity.
Qed.

Lemma issued_socket src (args : value) ws k s :
  sockets s !! ws = Some k ->
  sockets (issued src args ws s) !! ws =
  Some (push_sent (Stringify (wire src (clock s) args))
          (add_listener (Handler (next s) (clock s)) k)).
Proof.
  intros Hk. unfold issued, send, on_message. simpl.
  rewrite !lookup_alter_eq, Hk. reflexivity.
Qed.

Lemma issued_listeners src (args : value) ws k s :
  sockets s !! ws = Some k ->
  listeners_of ws (issued src args ws s) =
  message_listeners k ++ [Handler (next s) (clock s)].
Proof.
  intros Hk. unfold listeners_of. rewrite (issued_socket src _ _ _ _ Hk).
  reflexivity.
Qed.

Lemma issued_promise src (args : value) ws s :
  promises (issued src args ws s) !! next s = Some Pending.
Proof. unfold issued. simpl. apply lookup_insert_eq. Qed.

(** *** What an emit can do to one promise *)

Lemma run_listener_promise l v s ws n :
  nullish v = false -> logs_cleanly v = true -> localBridge s = Some ws ->
  exists s', run_listener l (Json v) s = Normal s' /\
    localBridge s' = Some ws /\
    (promises s' !! n = promises s !! n \/
     (promises s !! n = Some Pending /\
      promises s' !! n = Some (Resolved (settled_value v)))).
Proof.
  intros Hv Hq Hb. destruct (answers v l) eqn:E.
  - destruct l as [|m y]; [discriminate|].
    apply answers_handler in E.
    rewrite (run_listener_answer _ _ _ _ ws Hv E Hb).
    eexists. split; [reflexivity|]. unfold resolve. split.
    + rewrite settle_localBridge. exact Hb.
    + destruct (decide (m = n)) as [->|Hne].
      * destruct (promises s !! n) as [o|] eqn:Hp.
        -- destruct o.
           ++ right. split; [reflexivity|]. apply settle_pending. exact Hp.
           ++ left. rewrite settle_settled; simpl; rewrite Hp; [reflexivity|discriminate].
           ++ left. rewrite settle_settled; simpl; rewrite Hp; [reflexivity|discriminate].
        -- left. rewrite settle_settled; simpl; rewrite Hp; [reflexivity|discriminate].
      * left. rewrite settle_other by exact Hne. reflexivity.
  - exists s. rewrite run_listener_skip by assumption. auto.
Qed.

Lemma call_listeners_settled ls v ws n (o : settlement) : forall s,
  nullish v = false -> logs_cleanly v = true -> localBridge s = Some ws ->
  promises s !! n = Some o -> o <> Pending ->
  exists s', call_listeners ls (Json v) s = Normal s' /\
    localBridge s' = Some ws /\ promises s' !! n = Some o.
Proof.
  induction ls as [|l ls IH]; intros s Hv Hq Hb Hp Ho.
  - exists s. auto.
  - destruct (run_listener_promise l v s ws n Hv Hq Hb)
      as (s1 & Hrun & Hb1 & Hp1).
    assert (Hp1' : promises s1 !! n = Some o).
    { destruct Hp1 as [->|[Hpend _]]; [exact Hp|congruence]. }
    destruct (IH s1 Hv Hq Hb1 Hp1' Ho) as (s2 & Hcall & Hb2 & Hp2).
    exists s2. rewrite call_listeners_cons, Hrun, bind_Normal. auto.
Qed.

(** If the handler of call [n] is among the listeners called and waits for
    the id of the message, the call ends up resolved with
    [msg.result || msg.error], whatever the other listeners are. *)
Lemma call_listeners_resolves ls v ws n x : forall s,
  get_opt v "id" = VNum x -> logs_cleanly v = true ->
  localBridge s = Some ws ->
  Handler n x ∈ ls ->
  (promises s !! n = Some Pending \/
   promises s !! n = Some (Resolved (settled_value v))) ->
  exists s', call_listeners ls (Json v) s = Normal s' /\
    promises s' !! n = Some (Resolved (settled_value v)).
Proof.
  induction ls as [|l ls IH]; intros s Hid Hq Hb Hin Hp.
  - apply elem_of_nil in Hin. contradiction.
  - pose proof (id_nonnull _ _ Hid) as Hv.
    destruct (decide (l = Handler n x)) as [->|Hne].
    + rewrite call_listeners_cons.
      rewrite (run_listener_answer _ _ _ _ ws Hv Hid Hb), bind_Normal.
      set (s1 := resolve n (settled_value v)
                   (clearTimeout n (removeListener ws (Handler n x) s))).
      assert (Hb1 : localBridge s1 = Some ws).
      { unfold s1, resolve. rewrite settle_localBridge. exact Hb. }
      assert (Hp1 : promises s1 !! n = Some (Resolved (settled_value v))).
      { unfold s1, resolve. destruct Hp as [Hp|Hp].
        - apply settle_pending. exact Hp.
        - rewrite settle_settled; simpl; rewrite Hp;
            [reflexivity|discriminate]. }
      destruct (call_listeners_settled ls v ws n _ s1 Hv Hq Hb1 Hp1)
        as (s2 & Hcall & _ & Hp2); [discriminate|].
      exists s2. auto.
    + apply elem_of_cons in Hin as [Hin|Hin]; [congruence|].
      destruct (run_listener_promise l v s ws n Hv Hq Hb)
        as (s1 & Hrun & Hb1 & Hp1).
      assert (Hp1' : promises s1 !! n = Some Pending \/
                     promises s1 !! n = Some (Resolved (settled_value v))).
      { destruct Hp1 as [->|[_ ->]]; auto. }
      destruct (IH s1 Hid Hq Hb1 Hin Hp1') as (s2 & Hcall & Hp2).
      exists s2. rewrite call_listeners_cons, Hrun, bind_Normal. auto.
Qed.

Lemma reply_settles s ws ws0 n x v :
  localBridge s = Some ws ->
  Handler n x ∈ listeners_of ws0 s ->
  promises s !! n = Some Pending ->
  get_opt v "id" = VNum x ->
  logs_cleanly v = true ->
  exists s', emit_message ws0 (Json v) s = Normal s' /\
    promises s' !! n = Some (Resolved (settled_value v)).
Proof.
  intros Hb Hin Hp Hid Hq. rewrite emit_message_listeners.
  apply (call_listeners_resolves _ v ws n x); auto.
Qed.

(** A reply never changes a call that is already settled, for instance one
    that has timed out. *)
Lemma late_reply_keeps_outcome s ws ws0 n v (o : settlement) :
  localBridge s = Some ws -> nullish v = false -> logs_cleanly v = true ->
  promises s !! n = Some o -> o <> Pending ->
  exists s', emit_message ws0 (Json v) s = Normal s' /\
    promises s' !! n = Some o.
Proof.
  intros Hb Hv Hq Hp Ho. rewrite emit_message_listeners.
  destruct (call_listeners_settled (listeners_of ws0 s) v ws n o s
              Hv Hq Hb Hp Ho)
    as (s' & Hcall & _ & Hp').
  exists s'. auto.
Qed.

(** Once the call is issued on a live bridge, a reply bearing its id
    settles it with [msg.result || msg.error], whatever else is pending. *)
Lemma exchange_live src s (args : value) v :
  live s -> get_opt v "id" = VNum (clock s) -> logs_cleanly v = true ->
  exchange src args (Json v) s =
  Some {| content := StringifyIndent (settled_value v) 2; isError := false |}.
Proof.
  intros Hlive Hid Hq.
  destruct (live_inv _ Hlive) as (ws & k & Hb & Hk & Hr).
  unfold exchange. rewrite (local_bridge_live src _ _ _ _ Hb Hk Hr).
  assert (Hb1 : localBridge (issued src args ws s) = Some ws) by exact Hb.
  rewrite Hb1.
  destruct (reply_settles (issued src args ws s) ws ws (next s) (clock s) v)
    as (s' & -> & Hp); auto.
  - rewrite (issued_listeners src _ _ _ _ Hk). apply elem_of_app. right. left.
  - apply issued_promise.
  - unfold local_bridge_resume. rewrite Hp. reflexivity.
Qed.

(** *** Time and timers *)

Lemma local_bridge_clock src (args : value) s :
  clock (local_bridge src args s).2 = clock s.
Proof.
  unfold local_bridge. destruct (localBridge s); [|reflexivity].
  destruct (localBridge_readyState s) as [[|[]|]|]; reflexivity.
Qed.

(** Two calls with no tick of the clock between them wait for the same
    id on the same socket. *)
Lemma back_to_back_ids src (a1 a2 : value) s ws k :
  localBridge s = Some ws -> sockets s !! ws = Some k ->
  readyState k = 1%Z ->
  listeners_of ws
    (local_bridge src a2 (local_bridge src a1 s).2).2 =
  message_listeners k ++
    [Handler (next s) (clock s); Handler (S (next s)) (clock s)].
Proof.
  intros Hb Hk Hr. rewrite (local_bridge_live src _ a1 _ _ Hb Hk Hr).
  pose proof (issued_socket src a1 _ _ _ Hk) as Hk1.
  change ((Awaiting (next s), issued src a1 ws s).2)
    with (issued src a1 ws s).
  assert (Hb1 : localBridge (issued src a1 ws s) = Some ws) by exact Hb.
  rewrite (local_bridge_live src _ a2 _ _ Hb1 Hk1 Hr).
  change ((Awaiting (next (issued src a1 ws s)),
           issued src a2 ws (issued src a1 ws s)).2)
    with (issued src a2 ws (issued src a1 ws s)).
  rewrite (issued_listeners src _ _ _ _ Hk1). simpl.
  rewrite <- app_assoc. reflexivity.
Qed.


(** A timer callback never touches a socket: it rejects, nothing more. *)
Lemma timer_fire_sockets src n s : sockets (timer_fire src n s) = sockets s.
Proof. unfold timer_fire, reject. rewrite settle_sockets. reflexivity. Qed.

Lemma advance_sockets src (t : Z) s : sockets (advance src t s) = sockets s.
Proof.
  unfold advance.
  generalize (List.filter (due (clock (set_clock (Z.max (clock s) t) s)))
                (timers (set_clock (Z.max (clock s) t) s))).
  change (sockets s) with (sockets (set_clock (Z.max (clock s) t) s)).
  generalize (set_clock (Z.max (clock s) t) s).
  intros s0 tms. revert s0. induction tms as [|tm tms IH]; intros s0.
  - reflexivity.
  - simpl. rewrite IH. apply timer_fire_sockets.
Qed.



(** *** An invariant of the event loop *)










End BridgeLemmas.

(** ** Claims about the bridge *)

Section BridgeClaims.

Implicit Types (s : Bridge.state) (ws : handle) (v : value) (l : listener)
  (n : nat) (x : Z) (src : source).

(** C3.  A bridged call made while [localBridge] is null, or while the
    installed socket is not OPEN, returns the "bridge not connected" error
    result at once and leaves the state as it was: nothing is sent, no
    promise, listener or timer is created. *)
Theorem C3_bridge_unavailable src s (args : value) :
  (localBridge s = None \/
   exists ws k, localBridge s = Some ws /\ sockets s !! ws = Some k /\
                readyState k <> 1%Z) ->
  local_bridge src args s = (Returned (not_connected src), s) /\
  isError (not_connected src) = true.
Proof.
  intros H. split; [|reflexivity]. unfold local_bridge, localBridge_readyState.
  destruct H as [H|(ws & k & Hb & Hk & Hr)].
  - rewrite H. reflexivity.
  - rewrite Hb. simpl. rewrite Hk. simpl.
    destruct (readyState k) as [|[]|]; try reflexivity. congruence.
Qed.

Lemma C3_bridge_unavailable_witness :
  local_bridge server_js ping Bridge.initial
    = (Returned (not_connected server_js), Bridge.initial) /\
  isError (not_connected server_js) = true.
Proof. apply C3_bridge_unavailable. left. reflexivity. Defined.

(** C4.  After attach(A); attach(B), the close event of the stale socket A
    leaves [localBridge] at B.  In general the close handler changes
    [localBridge] only when it still holds the closing socket, and then
    clears it. *)
Theorem C4_stale_detach_is_noop (env : option string) s (A B : handle) :
  A <> B ->
  localBridge
    (emit_close A
       (accept env B (Some (BRIDGE_KEY env))
          (accept env A (Some (BRIDGE_KEY env)) s))) = Some B /\
  (forall s' ws, localBridge s' <> Some ws ->
     localBridge (emit_close ws s') = localBridge s') /\
  (forall s' ws k, sockets s' !! ws = Some k -> close_listener k = true ->
     localBridge s' = Some ws -> localBridge (emit_close ws s') = None).
Proof.
  intros HAB.
  assert (Hstale : forall s' ws, localBridge s' <> Some ws ->
            localBridge (emit_close ws s') = localBridge s').
  { intros s' ws Hne. unfold emit_close.
    destruct (sockets s' !! ws) as [k|]; [|reflexivity].
    destruct (close_listener k); [|reflexivity].
    unfold on_close. simpl. destruct (decide (localBridge s' = Some ws));
      [contradiction|reflexivity]. }
  split; [|split].
  - rewrite Hstale.
    + unfold accept at 1. unfold connection.
      destruct (decide _) as [_|Hk]; [reflexivity|congruence].
    + unfold accept at 1. unfold connection.
      destruct (decide _) as [_|Hk]; [simpl; congruence|congruence].
  - exact Hstale.
  - intros s' ws k Hk Hc Hb. unfold emit_close. rewrite Hk, Hc.
    unfold on_close. simpl. destruct (decide (localBridge s' = Some ws));
      [reflexivity|contradiction].
Qed.

Lemma C4_stale_detach_is_noop_witness :
  localBridge
    (emit_close 0 (accept None 1 key_ok (accept None 0 key_ok Bridge.initial)))
  = Some 1.
Proof.
  exact (proj1 (C4_stale_detach_is_noop None Bridge.initial 0 1 ltac:(lia))).
Defined.



Lemma one_pending_reachable : reachable None server_js one_pending.
Proof.
  eapply reachable_step; [eapply reachable_step; [apply reachable_initial|]|].
  - apply (step_accept None server_js Bridge.initial 0 key_ok). reflexivity.
  - apply (step_call None server_js attached ping).
Defined.








(** A falsy [result] does not survive [msg.result || msg.error]. *)
Example falsy_result_lost :
  exchange server_js ping (Json (reply_result 0 (VStr ""))) attached =
  Some {| content := StringifyIndent VUndefined 2; isError := false |}.
Proof. vm_compute. reflexivity. Qed.

(** C8 (amended).  On a live bridge the call takes [Date.now()] as its id,
    creates its promise, arms a timer at exactly 15000 ms from now,
    appends its handler to the listeners of the bridge socket and sends
    [JSON.stringify({id, action, command, path, content})] on it; no
    argument of the call changes the 15000. *)
Theorem C8_invoke_registers_and_sends src s (args : value) ws (k : socket) :
  localBridge s = Some ws ->
  sockets s !! ws = Some k ->
  readyState k = 1%Z ->
  exists s',
    local_bridge src args s = (Awaiting (next s), s') /\
    promises s' !! next s = Some Pending /\
    timers s' = timers s ++ [(next s, (clock s + 15000)%Z)] /\
    sockets s' !! ws =
    Some {| readyState := 1;
            message_listeners :=
              message_listeners k ++ [Handler (next s) (clock s)];
            close_listener := close_listener k;
            sent := sent k ++ [Stringify (wire src (clock s) args)] |} /\
    wire server_js (clock s) args =
      VObj [("id", VNum (clock s)); ("action", get_opt args "action");
            ("command", get_opt args "command");
            ("path", get_opt args "path");
            ("content", get_opt args "content")] /\
    wire part_001 (clock s) args =
      VObj [("id", VNum (clock s)); ("action", get_opt args "action");
            ("command", get_opt args "command");
            ("path", get_opt args "path");
            ("content", get_opt args "content");
            ("cwd", get_opt args "cwd")].
Proof.
  intros Hb Hk Hr. exists (issued src args ws s).
  split; [apply (local_bridge_live src _ _ _ _ Hb Hk Hr)|].
  split; [apply issued_promise|]. split; [reflexivity|].
  split; [|split; reflexivity].
  rewrite (issued_socket src _ _ _ _ Hk). unfold push_sent, add_listener. simpl.
  rewrite Hr. reflexivity.
Qed.

Lemma C8_invoke_registers_and_sends_witness :
  exists s',
    local_bridge server_js ping attached = (Awaiting 0, s') /\
    promises s' !! 0 = Some Pending /\
    timers s' = [(0, 15000%Z)] /\
    sockets s' !! 0 =
    Some {| readyState := 1;
            message_listeners := [OnMessage; Handler 0 0];
            close_listener := true;
            sent :=
              [Stringify
                 (VObj [("id", VNum 0); ("action", VStr "ping");
                        ("command", VUndefined); ("path", VUndefined);
                        ("content", VUndefined)])] |}.
Proof.
  destruct (C8_invoke_registers_and_sends server_js attached ping 0
              (mkSocket 1 [OnMessage] true []))
    as (s' & H1 & H2 & H3 & H4 & _); [reflexivity|vm_compute; reflexivity|
                                       reflexivity|].
  exists s'. repeat split; assumption.
Defined.

(** C8, as stated, fails: a timeout the caller puts among the arguments is
    not read.  At clock 0 with [timeoutMs: 1000] (or [timeout: 1000]) the
    timer is armed for 15000. *)
Lemma C8_caller_timeout_ignored :
  clock attached = 0%Z /\
  timers (local_bridge server_js (VObj [("action", VStr "ping");
                              ("timeoutMs", VNum 1000);
                              ("timeout", VNum 1000)]) attached).2
  = [(0, 15000%Z)].
Proof. vm_compute. split; reflexivity. Qed.

(** C1.  Two calls issued within the same millisecond get the same id:
    both handlers wait for id 0, both promises are pending, and the single
    reply for id 0 resolves both calls with the same value. *)
Theorem C1_same_millisecond_same_id :
  let s1 := (local_bridge server_js ping attached).2 in
  let s2 := (local_bridge server_js (VObj [("action", VStr "exec");
                                 ("command", VStr "dir")]) s1).2 in
  listeners_of 0 s2 = [OnMessage; Handler 0 0; Handler 1 0] /\
  promises s2 !! 0 = Some Pending /\
  promises s2 !! 1 = Some Pending /\
  exists s3,
    emit_message 0 (Json (reply_result 0 (VStr "pong"))) s2 = Normal s3 /\
    promises s3 !! 0 = Some (Resolved (VStr "pong")) /\
    promises s3 !! 1 = Some (Resolved (VStr "pong")).
Proof.
  cbv zeta. split; [vm_compute; reflexivity|].
  split; [vm_compute; reflexivity|]. split; [vm_compute; reflexivity|].
  eexists. split; [vm_compute; reflexivity|].
  split; vm_compute; reflexivity.
Qed.

(** C2.  When the timer of a call fires, its promise is rejected with the
    timeout error, but its handler stays among the listeners of the bridge
    socket.  A reply that comes later still runs that handler, which only
    then removes itself; the promise stays rejected. *)
Theorem C2_timeout_keeps_listener :
  let s := advance server_js 15000 one_pending in
  promises s !! 0 = Some (Rejected (timeout_error server_js)) /\
  timers s = [] /\
  listeners_of 0 s = [OnMessage; Handler 0 0] /\
  exists s',
    emit_message 0 (Json (reply_result 0 (VStr "late"))) s = Normal s' /\
    promises s' !! 0 = Some (Rejected (timeout_error server_js)) /\
    listeners_of 0 s' = [OnMessage].
Proof.
  cbv zeta. split; [vm_compute; reflexivity|].
  split; [vm_compute; reflexivity|]. split; [vm_compute; reflexivity|].
  eexists. split; [vm_compute; reflexivity|].
  split; vm_compute; reflexivity.
Qed.

End BridgeClaims.

(** ** Facts about the session registry *)

Import Http.

Section HttpLemmas.

Implicit Types (s : Http.state) (t : nat) (tr : transport) (sid : string)
  (req : request).

Lemma eqb_empty_false sid : sid <> "" -> String.eqb sid "" = false.
Proof. intros H. apply String.eqb_neq. exact H. Qed.

Lemma known_Some req s t :
  known (mcp_session_id req) s = Some t ->
  exists sid, mcp_session_id req = Some sid /\ sid <> "" /\
              sessions s !! sid = Some t.
Proof.
  unfold known. destruct (mcp_session_id req) as [sid|]; [|discriminate].
  destruct (String.eqb sid "") eqn:E; [discriminate|].
  intros H. exists sid. repeat split; [|exact H].
  apply String.eqb_neq. exact E.
Qed.

Lemma known_lookup sid s :
  sid <> "" -> known (Some sid) s = sessions s !! sid.
Proof. intros H. unfold known. rewrite (eqb_empty_false _ H). reflexivity. Qed.

(** Closure removes the entry in the same synchronous step. *)
Lemma close_removes s t tr sid :
  transports s !! t = Some tr -> onclose tr = true ->
  sessionId tr = Some sid -> sid <> "" ->
  sessions (close t s) !! sid = None.
Proof.
  intros Ht Hon Hsid Hne. unfold close. rewrite Ht, Hon, Hsid.
  rewrite (eqb_empty_false _ Hne). simpl. apply lookup_delete_eq.
Qed.

Lemma close_marks s t tr :
  transports s !! t = Some tr ->
  exists tr', transports (close t s) !! t = Some tr' /\ closed tr' = true.
Proof.
  intros Ht. unfold close. rewrite Ht.
  exists {| sessionId := sessionId tr; closed := true; onclose := onclose tr |}.
  split; [|reflexivity].
  assert (Hlt : t < length (transports s)) by (eapply lookup_lt_Some; eauto).
  destruct (onclose tr); [destruct (sessionId tr) as [sid|];
    [destruct (String.eqb sid "")|]|]; simpl;
    apply list_lookup_insert_eq; exact Hlt.
Qed.

(** A GET for the id of a transport that has just closed finds nothing. *)
Lemma get_after_close s t tr sid :
  transports s !! t = Some tr -> onclose tr = true ->
  sessionId tr = Some sid -> sid <> "" ->
  get_mcp (bearing sid) (close t s) = no_session.
Proof.
  intros Ht Hon Hsid Hne. unfold get_mcp.
  change (mcp_session_id (bearing sid)) with (Some sid).
  rewrite (known_lookup _ _ Hne), (close_removes _ _ _ _ Ht Hon Hsid Hne).
  reflexivity.
Qed.

Lemma close_sessions_sub s t sid t' :
  sessions (close t s) !! sid = Some t' -> sessions s !! sid = Some t'.
Proof.
  unfold close. destruct (transports s !! t) as [tr|]; [|auto].
  destruct (onclose tr); [|auto].
  destruct (sessionId tr) as [sid0|]; [|auto].
  destruct (String.eqb sid0 ""); [auto|]. simpl.
  intros H. apply lookup_delete_Some in H as [_ H]. exact H.
Qed.

Lemma close_transports_other s t t' :
  t <> t' -> transports (close t s) !! t' = transports s !! t'.
Proof.
  intros Hne. unfold close. destruct (transports s !! t) as [tr|]; [|auto].
  destruct (onclose tr); [destruct (sessionId tr) as [sid0|];
    [destruct (String.eqb sid0 "")|]|]; simpl;
    apply list_lookup_insert_ne; exact Hne.
Qed.

Lemma consistent_initial : consistent Http.initial.
Proof. intros sid t H. simpl in H. rewrite lookup_empty in H. discriminate. Qed.

Lemma consistent_close s t : consistent s -> consistent (close t s).
Proof.
  intros Hc sid t' H. pose proof (close_sessions_sub _ _ _ _ H) as H0.
  destruct (Hc _ _ H0) as (Hne & tr & Ht & Hcl & Hsid & Hon).
  split; [exact Hne|]. destruct (decide (t = t')) as [->|Hd].
  - rewrite (close_removes _ _ _ _ Ht Hon Hsid Hne) in H. discriminate.
  - exists tr. rewrite (close_transports_other _ _ _ Hd). auto.
Qed.

Lemma consistent_post_enter req s :
  consistent s -> consistent (post_enter req s).2.
Proof.
  intros Hc. unfold post_enter.
  destruct (known (mcp_session_id req) s); [exact Hc|]. simpl.
  intros sid t H. destruct (Hc _ _ H) as (Hne & tr & Ht & Hrest).
  split; [exact Hne|]. exists tr. split; [|exact Hrest]. simpl.
  rewrite lookup_app_l; [exact Ht|]. eapply lookup_lt_Some. exact Ht.
Qed.

Lemma consistent_initialize t (uuid : string) s :
  consistent s -> consistent (initialize t uuid s).
Proof.
  intros Hc. unfold initialize.
  destruct (transports s !! t) as [tr0|] eqn:Ht0; [|exact Hc].
  destruct (sessionId tr0) eqn:Hs0; [exact Hc|].
  intros sid t' H. simpl in H.
  destruct (Hc _ _ H) as (Hne & tr & Ht & Hcl & Hsid & Hon).
  split; [exact Hne|]. exists tr. simpl.
  rewrite list_lookup_insert_ne; [auto|]. intros ->. congruence.
Qed.

(** The re-insertion at the end of POST keeps the registry consistent
    provided the transport is still open at that point; the route does not
    test this. *)
Lemma consistent_post_leave t tr s :
  consistent s -> transports s !! t = Some tr ->
  closed tr = false -> onclose tr = true ->
  consistent (post_leave t s).
Proof.
  intros Hc Ht Hcl Hon. unfold post_leave. rewrite Ht.
  destruct (sessionId tr) as [sid0|] eqn:Hsid; [|exact Hc].
  destruct (String.eqb sid0 "") eqn:E; [exact Hc|]. simpl.
  destruct (bool_decide (sessions s !! sid0 = None)); [|exact Hc].
  intros sid t' H. simpl in H.
  destruct (decide (sid0 = sid)) as [->|Hd].
  - rewrite lookup_insert_eq in H. injection H as <-.
    split; [apply String.eqb_neq; exact E|]. exists tr. auto.
  - rewrite lookup_insert_ne in H by exact Hd. apply (Hc _ _ H).
Qed.

Lemma consistent_delete_mcp req s :
  consistent s -> consistent (delete_mcp req s).2.
Proof.
  intros Hc. unfold delete_mcp, delete_enter.
  destruct (known (mcp_session_id req) s) as [t|] eqn:Hk; [|exact Hc].
  destruct (known_Some _ _ _ Hk) as (sid0 & Hreq & _ & _).
  simpl. rewrite Hreq. intros sid t' H. simpl in H.
  apply lookup_delete_Some in H as [_ H].
  apply (consistent_close _ t Hc _ _ H).
Qed.

Lemma consistent_registered_open s : consistent s -> registered_open s.
Proof.
  intros Hc sid t H. destruct (Hc _ _ H) as (_ & tr & Ht & Hcl & _).
  exists tr. auto.
Qed.

End HttpLemmas.

(** ** Claims about the session registry *)

Section HttpClaims.

Implicit Types (s : Http.state) (req : request).

(** The round trip of the specification, with no request in flight across
    the closure: the first POST registers the session, GET finds it, and
    after the transport closes GET answers 400. *)
Example session_round_trip :
  let '(t, s1) := post_enter anonymous Http.initial in
  let s2 := post_leave t (initialize t "S" s1) in
  get_mcp (bearing "S") s2 = Handled t /\
  get_mcp (bearing "S") (close t s2) = no_session.
Proof. vm_compute. split; reflexivity. Qed.

(** C6.  A POST that is suspended in [handleRequest] while its transport
    closes puts the closed transport back into [sessions] when it resumes:
    the entry is gone right after the closure, and is there again, naming a
    closed transport, after the POST has finished; GET then dispatches to
    that transport instead of answering 400. *)
Theorem C6_closed_transport_reinserted :
  let '(t, s1) := post_enter anonymous Http.initial in
  let s2 := post_leave t (initialize t "S" s1) in
  let '(t', s3) := post_enter (bearing "S") s2 in
  let s4 := (delete_mcp (bearing "S") s3).2 in
  let s5 := post_leave t' s4 in
  consistent s3 /\
  sessions s4 !! "S" = None /\
  get_mcp (bearing "S") s4 = no_session /\
  sessions s5 !! "S" = Some t' /\
  closed <$> transports s5 !! t' = Some true /\
  get_mcp (bearing "S") s5 = Handled t' /\
  ~ registered_open s5.
Proof.
  cbv zeta.
  destruct (post_enter anonymous Http.initial) as [t s1] eqn:E1.
  vm_compute in E1. injection E1 as <- <-.
  destruct (post_enter (bearing "S") _) as [t' s3] eqn:E3.
  vm_compute in E3. injection E3 as <- <-.
  split; [|split; [|split; [|split; [|split; [|split]]]]];
    try (vm_compute; reflexivity).
  - apply (consistent_post_enter (bearing "S")
             (post_leave 0 (initialize 0 "S" (post_enter anonymous Http.initial).2))).
    eapply consistent_post_leave.
    + apply consistent_initialize, consistent_post_enter, consistent_initial.
    + vm_compute. reflexivity.
    + reflexivity.
    + reflexivity.
  - intros Hopen.
    destruct (Hopen "S" 0) as (tr & Ht & Hcl); [vm_compute; reflexivity|].
    vm_compute in Ht. injection Ht as <-. discriminate.
Qed.

(** C10 (amended).  A DELETE /mcp that passes [authenticate] is answered
    200 [{ok: true}] whatever its session header; this holds also for the
    part of the handler that runs after [await transport.close()], in any
    state it resumes in.  When the header is missing, empty or unknown the
    state is left as it was. *)
Theorem C10_delete_always_ok (env : option string) req s :
  authenticate env req = None ->
  (app_delete env req s).1 = Reply 200 (VObj [("ok", VBool true)]) /\
  (forall taken s',
     (delete_leave req taken s').1 = Reply 200 (VObj [("ok", VBool true)])) /\
  (known (mcp_session_id req) s = None -> (app_delete env req s).2 = s).
Proof.
  intros Hauth. unfold app_delete. rewrite Hauth.
  unfold delete_mcp, delete_enter.
  split; [|split].
  - destruct (known (mcp_session_id req) s); reflexivity.
  - reflexivity.
  - intros ->. reflexivity.
Qed.

Lemma C10_delete_always_ok_witness :
  (app_delete None (bearing "unknown") Http.initial).1
    = Reply 200 (VObj [("ok", VBool true)]) /\
  (app_delete None (bearing "unknown") Http.initial).2 = Http.initial.
Proof.
  destruct (C10_delete_always_ok None (bearing "unknown") Http.initial)
    as (H1 & _ & H3); [reflexivity|].
  split; [exact H1|apply H3; reflexivity].
Defined.

(** C10, as stated, fails when a token is configured: a DELETE without the
    bearer token is answered 401 by the middleware and never reaches the
    handler. *)
Lemma C10_unauthorized_delete :
  app_delete (Some "secret") anonymous Http.initial =
  (Reply 401 (VObj [("error", VStr "Unauthorized")]), Http.initial).
Proof. vm_compute. reflexivity. Qed.

End HttpClaims.

(** ** The local tools *)

Section ToolFacts.

Import Tools.

Implicit Types (s b p : string) (src : source) (args : value).

Lemma starts_with_app p s : starts_with p (p +:+ s) = true.
Proof.
  induction p as [|a p IH]; simpl; [reflexivity|].
  rewrite Ascii.eqb_refl. exact IH.
Qed.

Lemma starts_with_split p s :
  starts_with p s = true -> exists rest, s = p +:+ rest.
Proof.
  revert s. induction p as [|a p IH]; intros s H.
  - exists s. reflexivity.
  - destruct s as [|c s]; [discriminate|]. simpl in H.
    apply andb_prop in H as [Hac Hps]. apply Ascii.eqb_eq in Hac as ->.
    destruct (IH _ Hps) as [rest ->]. exists rest. reflexivity.
Qed.

Lemma includes_here s b : starts_with b s = true -> includes s b = true.
Proof. intros H. destruct s; simpl; rewrite H; reflexivity. Qed.

Lemma includes_later (c : Ascii.ascii) s b :
  includes s b = true -> includes (String c s) b = true.
Proof. intros H. simpl. rewrite H. apply orb_true_r. Qed.

(** [includes] is the substring relation. *)
Lemma includes_spec s b :
  includes s b = true <-> exists pre post, s = pre +:+ b +:+ post.
Proof.
  split.
  - induction s as [|c s IH]; simpl; intros H.
    + rewrite orb_false_r in H. apply starts_with_split in H as [rest ->].
      exists "", rest. reflexivity.
    + apply orb_prop in H as [H|H].
      * apply starts_with_split in H as [rest ->]. exists "", rest. reflexivity.
      * destruct (IH H) as (pre & post & ->).
        exists (String c pre), post. reflexivity.
  - intros (pre & post & ->). induction pre as [|c pre IH].
    + change ("" +:+ b +:+ post) with (b +:+ post).
      apply includes_here, starts_with_app.
    + apply (includes_later c), IH.
Qed.

Lemma some_blocked_string s (l : list string) :
  some_blocked (VStr s) l = Normal (existsb (includes s) l).
Proof.
  induction l as [|b l IH]; [reflexivity|].
  change (some_blocked (VStr s) (b :: l))
    with (Normal (includes s b) ≫=
            (fun hit : bool =>
               if hit then Normal true else some_blocked (VStr s) l)).
  rewrite bind_Normal. simpl existsb.
  destruct (includes s b); simpl; [reflexivity|exact IH].
Qed.

Lemma blocked_nonempty src b : b ∈ blocked src -> b <> "".
Proof.
  intros H ->. destruct src; unfold blocked in H; simpl in H;
    repeat (apply elem_of_cons in H as [H|H]; [discriminate|]);
    apply elem_of_nil in H; exact H.
Qed.

Lemma includes_empty b : includes "" b = true -> b = "".
Proof. destruct b; simpl; [reflexivity|discriminate]. Qed.

(** *** [slice] *)

(** What [slice] keeps: a prefix, never longer than the limit, and the
    whole string when that is within the limit. *)
Lemma slice_spec (n : Z) (u : units) :
  (0 <= n)%Z ->
  (exists rest, u = slice n u ++ rest) /\
  Z.of_nat (length (slice n u)) = Z.min n (Z.of_nat (length u)) /\
  ((Z.of_nat (length u) <= n)%Z -> slice n u = u).
Proof.
  intros Hn. unfold slice. split; [|split].
  - exists (drop (Z.to_nat n) u). symmetry. apply take_drop.
  - rewrite length_take. lia.
  - intros H. apply take_ge. lia.
Qed.

Lemma strict_equals_string (v : value) s :
  strict_equals v (VStr s) = true <-> v = VStr s.
Proof.
  destruct v; simpl; split; try discriminate; intros H.
  - apply String.eqb_eq in H. congruence.
  - injection H as ->. apply String.eqb_refl.
Qed.

End ToolFacts.

(** ** Properties of the local tools *)

Section ToolProperties.

Import Tools.

Implicit Types (s b : string) (src : source) (args : value).

(** X1.  [exec] refuses a command that contains one of the blocked
    patterns anywhere in it: it returns the "blocked" error result and
    never gets to [execAsync]. *)
Theorem X1_exec_refuses_blocked src args (cmd b pre post : string) :
  get_opt args "command" = VStr cmd ->
  b ∈ blocked src ->
  cmd = pre +:+ b +:+ post ->
  exec_enter src args = Normal (ExecReturned (blocked_result src)) /\
  Tools.isError (blocked_result src) = true.
Proof.
  intros Hcmd Hb Hsplit. split; [|reflexivity].
  assert (Hinc : includes cmd b = true).
  { apply includes_spec. exists pre, post. exact Hsplit. }
  assert (Hhit : existsb (includes cmd) (blocked src) = true).
  { apply existsb_exists. exists b. split; [|exact Hinc].
    apply list_elem_of_In. exact Hb. }
  assert (Htruthy : truthy (VStr cmd) = true).
  { simpl. destruct cmd as [|c cmd]; [|reflexivity].
    apply includes_empty in Hinc. apply blocked_nonempty in Hb. contradiction. }
  unfold exec_enter. rewrite Hcmd, Htruthy, some_blocked_string, Hhit.
  destruct src; reflexivity.
Qed.

Lemma X1_exec_refuses_blocked_witness :
  exec_enter server_js
    (VObj [("command", VStr "sudo shutdown -h now")])
  = Normal (ExecReturned (blocked_result server_js)).
Proof.
  refine (proj1 (X1_exec_refuses_blocked server_js _ "sudo shutdown -h now"
                   "shutdown" "sudo " " -h now" _ _ _)).
  - reflexivity.
  - apply (bool_decide_unpack _). vm_compute. exact I.
  - reflexivity.
Defined.

(** X2.  Whenever [exec] does reach [execAsync], the command is the
    [command] argument itself, no blocked pattern occurs in it, the buffer
    limit is 1 MiB and the timeout is never falsy: it is the [timeout]
    argument when that is truthy and 10000 when it is missing or 0.  In
    [server.js] the command is moreover never empty. *)
Theorem X2_exec_spawn_is_guarded src args (c t : value) (m : Z) :
  exec_enter src args = Normal (ExecAwaiting c t m) ->
  c = get_opt args "command" /\
  m = 1048576%Z /\
  truthy t = true /\
  t = (if truthy (get_opt args "timeout") then get_opt args "timeout"
       else VNum 10000) /\
  (forall cmd b pre post, c = VStr cmd -> b ∈ blocked src ->
     cmd <> pre +:+ b +:+ post) /\
  (src = server_js -> truthy c = true).
Proof.
  unfold exec_enter. intros H.
  assert (H' : (some_blocked (get_opt args "command") (blocked src) ≫=
                 (fun hit : bool =>
                    if hit then Normal (ExecReturned (blocked_result src))
                    else Normal (ExecAwaiting (get_opt args "command")
                                   (Js.or (get_opt args "timeout") (VNum 10000))
                                   (1024 * 1024))))
               = Normal (ExecAwaiting c t m) /\
               (src = server_js -> truthy (get_opt args "command") = true)).
  { destruct src; [|split; [exact H|discriminate]].
    destruct (truthy (get_opt args "command")); [|discriminate].
    split; [exact H|reflexivity]. }
  clear H. destruct H' as [H Hsrc].
  destruct (some_blocked (get_opt args "command") (blocked src))
    as [hit|] eqn:Hsome; [|discriminate].
  rewrite bind_Normal in H. destruct hit; [discriminate|].
  injection H as <- <- <-.
  split; [reflexivity|]. split; [reflexivity|]. split; [|split; [|split]].
  - unfold Js.or. destruct (truthy (get_opt args "timeout")) eqn:E;
      [exact E|reflexivity].
  - reflexivity.
  - intros cmd b pre post Hc Hb Hsplit. rewrite Hc, some_blocked_string in Hsome.
    assert (Hhit : existsb (includes cmd) (blocked src) = true);
      [|rewrite Hhit in Hsome; discriminate].
    apply existsb_exists. exists b. split; [apply list_elem_of_In; exact Hb|].
    apply includes_spec. exists pre, post. exact Hsplit.
  - exact Hsrc.
Qed.

Lemma X2_exec_spawn_is_guarded_witness :
  exec_enter part_001 (VObj [("command", VStr "ls -la"); ("timeout", VNum 0)])
  = Normal (ExecAwaiting (VStr "ls -la") (VNum 10000) 1048576) /\
  truthy (VNum 10000) = true.
Proof.
  assert (E : exec_enter part_001
                (VObj [("command", VStr "ls -la"); ("timeout", VNum 0)])
              = Normal (ExecAwaiting (VStr "ls -la") (VNum 10000) 1048576))
    by (vm_compute; reflexivity).
  split; [exact E|].
  exact (proj1 (proj2 (proj2 (X2_exec_spawn_is_guarded _ _ _ _ _ E)))).
Defined.

(** X3.  The successful results of [exec], [read_file] and [http_request]
    carry a prefix of what the operation produced, cut at 5000 (stdout),
    2000 (stderr), 10000 (file content) and 8000 (response body) UTF-16
    code units; output within the limit comes back whole, and the result
    is not flagged as an error. *)
Theorem X3_tool_output_is_truncated src (out err file body : units)
    (status : Z) :
  (exists o e,
     exec_resume src (ExecOk out err) =
       {| content := TJsonObject [("stdout", FUnits o); ("stderr", FUnits e)];
          isError := false |} /\
     (exists rest, out = o ++ rest) /\
     Z.of_nat (length o) = Z.min 5000 (Z.of_nat (length out)) /\
     ((Z.of_nat (length out) <= 5000)%Z -> o = out) /\
     (exists rest, err = e ++ rest) /\
     Z.of_nat (length e) = Z.min 2000 (Z.of_nat (length err)) /\
     ((Z.of_nat (length err) <= 2000)%Z -> e = err)) /\
  (exists f,
     read_file_resume src (ReadOk file) =
       {| content := TUnits f; isError := false |} /\
     (exists rest, file = f ++ rest) /\
     Z.of_nat (length f) = Z.min 10000 (Z.of_nat (length file)) /\
     ((Z.of_nat (length file) <= 10000)%Z -> f = file)) /\
  (exists t,
     http_request_resume src (HttpOk status body) =
       {| content := TJsonObject [("status", FNum status); ("body", FUnits t)];
          isError := false |} /\
     (exists rest, body = t ++ rest) /\
     Z.of_nat (length t) = Z.min 8000 (Z.of_nat (length body)) /\
     ((Z.of_nat (length body) <= 8000)%Z -> t = body)).
Proof.
  split; [|split].
  - exists (slice 5000 out), (slice 2000 err). split; [reflexivity|].
    destruct (slice_spec 5000 out) as (Hp & Hl & Hw); [lia|].
    destruct (slice_spec 2000 err) as (Hp' & Hl' & Hw'); [lia|].
    repeat split; assumption.
  - exists (slice 10000 file). split; [reflexivity|].
    destruct (slice_spec 10000 file) as (Hp & Hl & Hw); [lia|].
    repeat split; assumption.
  - exists (slice 8000 body). split; [reflexivity|].
    destruct (slice_spec 8000 body) as (Hp & Hl & Hw); [lia|].
    repeat split; assumption.
Qed.

(** Code units 0xAC00 are the Hangul syllable "ga": 4000 of them are
    within the 10000 limit, whatever their length in bytes. *)
Lemma X3_tool_output_is_truncated_witness :
  read_file_resume server_js (ReadOk (replicate 4000 44032%N))
  = {| Tools.content := TUnits (replicate 4000 44032%N);
       Tools.isError := false |}.
Proof.
  destruct (X3_tool_output_is_truncated server_js [] []
              (replicate 4000 44032%N) [] 0)
    as (_ & (f & Hf & _ & _ & Hw) & _).
  rewrite Hf, Hw; [reflexivity|]. rewrite length_replicate. lia.
Defined.

(** X4.  Whenever [http_request] gets as far as [fetch] (the [headers]
    argument is falsy or parses), the request goes to the [url] argument
    with the [method] argument, or "GET" when that is falsy, and it
    carries the [body] argument exactly when that is truthy and the
    [method] argument is not exactly "GET".  In particular, with the
    method left out the request is built with method "GET" and still
    carries the body. *)
Theorem X4_http_body_rule src (parse : value -> string + value) args
    (parsed : value) :
  (if truthy (get_opt args "headers") then parse (get_opt args "headers")
   else inr (VObj [])) = inr parsed ->
  exists opts,
    http_request_enter src parse args
      = HttpAwaiting (get_opt args "url") opts /\
    headers opts = parsed /\
    method opts = (if truthy (get_opt args "method")
                   then get_opt args "method" else VStr "GET") /\
    (forall sent, body opts = Some sent <->
       sent = get_opt args "body" /\ truthy (get_opt args "body") = true /\
       get_opt args "method" <> VStr "GET") /\
    (truthy (get_opt args "method") = false ->
     truthy (get_opt args "body") = true ->
     method opts = VStr "GET" /\ body opts = Some (get_opt args "body")).
Proof.
  intros Hparse. unfold http_request_enter. rewrite Hparse.
  eexists. split; [reflexivity|]. simpl. split; [reflexivity|].
  split; [reflexivity|].
  assert (Hget : strict_equals (get_opt args "method") (VStr "GET") = false
                 <-> get_opt args "method" <> VStr "GET").
  { rewrite <- (strict_equals_string (get_opt args "method") "GET").
    destruct (strict_equals (get_opt args "method") (VStr "GET"));
      split; congruence. }
  split.
  - intros sent. destruct (truthy (get_opt args "body")) eqn:Hb; simpl.
    + destruct (strict_equals (get_opt args "method") (VStr "GET")) eqn:E;
        simpl.
      * split; [discriminate|]. intros (_ & _ & Hne).
        apply Hget in Hne. congruence.
      * split; [intros [= <-]; repeat split; apply Hget; reflexivity|].
        intros (-> & _ & _). reflexivity.
    + split; [discriminate|]. intros (_ & H & _). discriminate.
  - intros Hm Hb. unfold Js.or. rewrite Hm, Hb. split; [reflexivity|].
    destruct (strict_equals (get_opt args "method") (VStr "GET")) eqn:E;
      [|reflexivity].
    apply strict_equals_string in E. rewrite E in Hm. discriminate.
Qed.

Lemma X4_http_body_rule_witness :
  exists opts,
    http_request_enter server_js (fun _ => inr (VObj [("x-k", VStr "1")]))
      (VObj [("url", VStr "http://example.org"); ("method", VStr "POST");
             ("headers", VStr "{...}"); ("body", VStr "x=1")])
    = HttpAwaiting (VStr "http://example.org") opts /\
    method opts = VStr "POST" /\ body opts = Some (VStr "x=1").
Proof.
  destruct (X4_http_body_rule server_js
              (fun _ => inr (VObj [("x-k", VStr "1")]))
              (VObj [("url", VStr "http://example.org");
                     ("method", VStr "POST");
                     ("headers", VStr "{...}"); ("body", VStr "x=1")])
              (VObj [("x-k", VStr "1")]))
    as (opts & He & _ & Hm & Hb & _); [reflexivity|].
  exists opts. split; [exact He|]. split; [exact Hm|].
  apply Hb. repeat split. discriminate.
Defined.

(** X5.  [http_request] parses the [headers] argument only when it is
    truthy.  When the parser throws, the handler returns the flagged
    failure result with the parser's message and does not call [fetch];
    in every request it does make, the method is truthy and the body is
    absent for a method argument of exactly "GET". *)
Theorem X5_http_request_options src (parse : value -> string + value) args :
  (truthy (get_opt args "headers") = false ->
     forall parse', http_request_enter src parse args =
                    http_request_enter src parse' args) /\
  (forall message, truthy (get_opt args "headers") = true ->
     parse (get_opt args "headers") = inl message ->
     http_request_enter src parse args =
     HttpReturned (http_failed src message)) /\
  (forall url opts, http_request_enter src parse args = HttpAwaiting url opts ->
     truthy (method opts) = true /\
     (get_opt args "method" = VStr "GET" -> body opts = None)).
Proof.
  split; [|split].
  - intros H parse'. unfold http_request_enter. rewrite H. reflexivity.
  - intros message H Hparse. unfold http_request_enter.
    rewrite H, Hparse. reflexivity.
  - intros url opts. unfold http_request_enter.
    destruct (if truthy (get_opt args "headers") then _ else _)
      as [message|parsed]; [discriminate|].
    intros [= <- <-]. simpl. split.
    + unfold Js.or. destruct (truthy (get_opt args "method")) eqn:E;
        [exact E|reflexivity].
    + intros ->. simpl. rewrite andb_false_r. reflexivity.
Qed.

Lemma X5_http_request_options_witness :
  http_request_enter part_001 (fun _ => inl "Unexpected token b")
    (VObj [("url", VStr "http://example.org"); ("headers", VStr "{bad")])
  = HttpReturned (http_failed part_001 "Unexpected token b").
Proof.
  apply (proj1 (proj2 (X5_http_request_options part_001
                         (fun _ => inl "Unexpected token b") _)));
    reflexivity.
Defined.

End ToolProperties.

(** ** Properties of the routes *)

Section RouteProperties.

Import Runs.

Implicit Types (s : Http.state) (t : nat) (tr : transport) (sid : string)
  (req : request) (env : option string).

(** X6.  The gate lets a request through exactly when no token is
    configured or the Authorization header is "Bearer " followed by the
    token; any other request is answered 401 by GET, DELETE and POST alike
    and leaves the registry and the transports as they were. *)
Theorem X6_gate_guards_every_route env req s :
  (authenticate env req = None <->
   AUTH_TOKEN env = "" \/
   authorization req = Some ("Bearer " +:+ AUTH_TOKEN env)) /\
  (authenticate env req <> None ->
   app_get env req s = unauthorized /\
   app_delete env req s = (unauthorized, s) /\
   app_post_enter env req s = inl unauthorized).
Proof.
  unfold app_get, app_delete, app_post_enter, authenticate.
  destruct (String.eqb (AUTH_TOKEN env) "") eqn:E.
  - apply String.eqb_eq in E. split; [tauto|congruence].
  - apply String.eqb_neq in E.
    destruct (decide (authorization req =
                      Some ("Bearer " +:+ AUTH_TOKEN env))) as [Ha|Ha].
    + split; [tauto|congruence].
    + split; [|intros _; repeat split].
      split; [discriminate|]. intros [H|H]; contradiction.
Qed.

Lemma X6_gate_guards_every_route_witness :
  app_delete (Some "secret") (bearing "S") Http.initial
  = (unauthorized, Http.initial).
Proof.
  apply (proj2 (X6_gate_guards_every_route (Some "secret") (bearing "S")
                  Http.initial)).
  discriminate.
Defined.

Lemma post_leave_keeps t s sid t0 :
  sessions s !! sid = Some t0 -> sessions (post_leave t s) !! sid = Some t0.
Proof.
  intros H. unfold post_leave. destruct (transports s !! t) as [tr|]; [|exact H].
  destruct (sessionId tr) as [sid0|]; [|exact H].
  destruct (negb (String.eqb sid0 "")); [|exact H]. simpl.
  destruct (bool_decide (sessions s !! sid0 = None)) eqn:E; [|exact H].
  apply bool_decide_eq_true in E. simpl.
  rewrite lookup_insert_ne; [exact H|]. intros ->. congruence.
Qed.

Lemma post_enter_sessions req s : sessions (post_enter req s).2 = sessions s.
Proof.
  unfold post_enter. destruct (known (mcp_session_id req) s); reflexivity.
Qed.

Lemma initialize_sessions t (uuid : string) s :
  sessions (initialize t uuid s) = sessions s.
Proof.
  unfold initialize. destruct (transports s !! t) as [tr|]; [|reflexivity].
  destruct (sessionId tr); reflexivity.
Qed.

(** X7.  A POST never rebinds or removes a session that is registered:
    whatever id the request bears and whatever id the SDK generates, every
    entry of the registry is still there, with the same transport, when the
    POST has finished. *)
Theorem X7_post_keeps_entries req (uuid : option string) s sid t0 :
  sessions s !! sid = Some t0 ->
  sessions (post_mcp req uuid s) !! sid = Some t0.
Proof.
  intros H. unfold post_mcp.
  destruct (post_enter req s) as [t s1] eqn:E.
  apply post_leave_keeps.
  assert (Hs1 : sessions s1 = sessions s).
  { pose proof (post_enter_sessions req s) as Hs. rewrite E in Hs. exact Hs. }
  destruct uuid as [u|]; [rewrite initialize_sessions|]; rewrite Hs1; exact H.
Qed.

Lemma X7_post_keeps_entries_witness :
  sessions (post_mcp (bearing "other") (Some "S")
              (post_mcp anonymous (Some "S") Http.initial)) !! "S" = Some 0.
Proof. apply X7_post_keeps_entries. vm_compute. reflexivity. Defined.

(** X8.  A POST that bears no known session id registers its new transport
    under the id the SDK generated and under nothing else: the registry
    afterwards is the old one plus that one entry, so an unknown id sent by
    the client is not adopted.  If the request was not an initialize
    request, so that no id was generated, the registry is unchanged and the
    new transport stays unregistered. *)
Theorem X8_post_registers_generated_id req s (uuid : string) :
  known (mcp_session_id req) s = None ->
  uuid <> "" ->
  sessions s !! uuid = None ->
  sessions (post_mcp req (Some uuid) s)
    = <[uuid := length (transports s)]> (sessions s) /\
  transports (post_mcp req (Some uuid) s)
    = transports s ++
      [{| sessionId := Some uuid; closed := false; onclose := true |}] /\
  sessions (post_mcp req None s) = sessions s /\
  transports (post_mcp req None s) = transports s ++ [fresh_transport].
Proof.
  intros Hk Hne Hfree. unfold post_mcp, post_enter. rewrite Hk.
  set (n := length (transports s)).
  set (s1 := set_transports (transports s ++ [fresh_transport]) s).
  assert (H1 : transports s1 !! n = Some fresh_transport).
  { apply list_lookup_middle. reflexivity. }
  assert (Hinit : initialize n uuid s1 =
            set_transports
              (transports s ++
               [{| sessionId := Some uuid; closed := false;
                   onclose := true |}]) s).
  { unfold initialize. rewrite H1. simpl. unfold set_transports. simpl.
    f_equal. unfold n. rewrite insert_app_r_alt by lia.
    rewrite Nat.sub_diag. reflexivity. }
  rewrite Hinit. unfold post_leave. rewrite H1. simpl.
  rewrite (list_lookup_middle (transports s) [] _ n) by reflexivity. simpl.
  rewrite (eqb_empty_false _ Hne), (bool_decide_eq_true_2 _ Hfree). simpl.
  repeat split.
Qed.

Lemma X8_post_registers_generated_id_witness :
  sessions (post_mcp (bearing "made-up") (Some "S") Http.initial)
    = <["S" := 0]> ∅.
Proof.
  refine (proj1 (X8_post_registers_generated_id (bearing "made-up")
                   Http.initial "S" _ _ _)).
  - reflexivity.
  - discriminate.
  - reflexivity.
Defined.

Lemma post_mcp_known req (uuid : option string) s t :
  consistent s ->
  known (mcp_session_id req) s = Some t ->
  post_enter req s = (t, s) /\ post_mcp req uuid s = s.
Proof.
  intros Hc Hk. unfold post_mcp, post_enter. rewrite Hk. split; [reflexivity|].
  destruct (known_Some _ _ _ Hk) as (sid & _ & Hne & Hs).
  destruct (Hc _ _ Hs) as (_ & tr & Ht & _ & Hsid & _).
  assert (Hinit : match uuid with
                  | Some u => initialize t u s
                  | None => s
                  end = s).
  { destruct uuid as [u|]; [|reflexivity]. unfold initialize.
    rewrite Ht, Hsid. reflexivity. }
  rewrite Hinit. unfold post_leave. rewrite Ht, Hsid.
  rewrite (eqb_empty_false _ Hne). simpl.
  rewrite bool_decide_eq_false_2; [reflexivity|]. rewrite Hs. discriminate.
Qed.

(** X9.  In a consistent registry a POST that bears a registered id is
    dispatched to the registered transport, allocates no transport, and
    leaves the registry and the transports exactly as they were, whether
    or not the SDK is given an id to assign. *)
Theorem X9_post_reuses_session req (uuid : option string) s t :
  consistent s ->
  known (mcp_session_id req) s = Some t ->
  post_enter req s = (t, s) /\ post_mcp req uuid s = s.
Proof. apply post_mcp_known. Qed.

Lemma X9_post_reuses_session_witness :
  post_mcp (bearing "S") (Some "T")
    (post_mcp anonymous (Some "S") Http.initial)
  = post_mcp anonymous (Some "S") Http.initial.
Proof.
  refine (proj2 (X9_post_reuses_session (bearing "S") (Some "T")
                   (post_mcp anonymous (Some "S") Http.initial) 0 _ _)).
  - intros sid t H.
    assert (E : sessions (post_mcp anonymous (Some "S") Http.initial)
                = <["S" := 0]> ∅) by (vm_compute; reflexivity).
    rewrite E in H. apply lookup_insert_Some in H as [[<- <-]|[_ H]].
    + split; [discriminate|]. eexists. split; [vm_compute; reflexivity|].
      repeat split.
    + rewrite lookup_empty in H. discriminate.
  - vm_compute. reflexivity.
Defined.

(** X10.  In a consistent registry a DELETE that bears a registered id
    answers 200, removes exactly that entry, marks its transport closed
    and touches no other transport. *)
Theorem X10_delete_removes_and_closes req s sid t :
  consistent s ->
  mcp_session_id req = Some sid ->
  sessions s !! sid = Some t ->
  (delete_mcp req s).1 = ok_true /\
  sessions (delete_mcp req s).2 = delete sid (sessions s) /\
  (exists tr', transports (delete_mcp req s).2 !! t = Some tr' /\
               closed tr' = true) /\
  (forall t', t <> t' ->
     transports (delete_mcp req s).2 !! t' = transports s !! t').
Proof.
  intros Hc Hreq Hs.
  destruct (Hc _ _ Hs) as (Hne & tr & Ht & _ & Hsid & Hon).
  assert (Hk : known (mcp_session_id req) s = Some t).
  { rewrite Hreq, (known_lookup _ _ Hne). exact Hs. }
  unfold delete_mcp, delete_enter. rewrite Hk. unfold delete_leave.
  rewrite Hreq. simpl. split; [reflexivity|].
  split; [|split].
  - unfold close. rewrite Ht, Hon, Hsid, (eqb_empty_false _ Hne). simpl.
    apply delete_delete_eq.
  - apply (close_marks _ _ _ Ht).
  - intros t' Hd. apply close_transports_other. exact Hd.
Qed.

Lemma X10_delete_removes_and_closes_witness :
  sessions (delete_mcp (bearing "S")
              (post_mcp anonymous (Some "S") Http.initial)).2 = ∅.
Proof.
  assert (E : sessions (post_mcp anonymous (Some "S") Http.initial)
              = <["S" := 0]> ∅) by (vm_compute; reflexivity).
  destruct (X10_delete_removes_and_closes (bearing "S")
              (post_mcp anonymous (Some "S") Http.initial) "S" 0)
    as (_ & H & _).
  - intros sid t H. rewrite E in H.
    apply lookup_insert_Some in H as [[<- <-]|[_ H]].
    + split; [discriminate|]. eexists. split; [vm_compute; reflexivity|].
      repeat split.
    + rewrite lookup_empty in H. discriminate.
  - reflexivity.
  - vm_compute. reflexivity.
  - rewrite H, E. vm_compute. reflexivity.
Defined.

(** X11.  DELETE is idempotent: a second DELETE with the same header
    answers 200 again and changes nothing. *)
Theorem X11_delete_is_idempotent req s :
  delete_mcp req (delete_mcp req s).2 = (ok_true, (delete_mcp req s).2).
Proof.
  assert (Hk : known (mcp_session_id req) (delete_mcp req s).2 = None).
  { unfold delete_mcp, delete_enter.
    destruct (known (mcp_session_id req) s) as [t|] eqn:Hk; simpl; [|exact Hk].
    destruct (known_Some _ _ _ Hk) as (sid & Hreq & Hne & _).
    rewrite Hreq. simpl. rewrite (eqb_empty_false _ Hne).
    apply lookup_delete_eq. }
  unfold delete_mcp at 1. unfold delete_enter. rewrite Hk. reflexivity.
Qed.

Lemma consistent_post_mcp req (uuid : option string) s :
  consistent s -> consistent (post_mcp req uuid s).
Proof.
  intros Hc. destruct (known (mcp_session_id req) s) as [t|] eqn:Hk.
  - rewrite (proj2 (post_mcp_known req uuid s t Hc Hk)). exact Hc.
  - unfold post_mcp, post_enter. rewrite Hk.
    set (n := length (transports s)).
    set (s1 := set_transports (transports s ++ [fresh_transport]) s).
    assert (Hc1 : consistent s1).
    { pose proof (consistent_post_enter req s Hc) as H.
      unfold post_enter in H. rewrite Hk in H. exact H. }
    assert (H1 : transports s1 !! n = Some fresh_transport).
    { apply list_lookup_middle. reflexivity. }
    destruct uuid as [u|].
    + apply (consistent_post_leave n
               {| sessionId := Some u; closed := false; onclose := true |}).
      * apply consistent_initialize. exact Hc1.
      * unfold initialize. rewrite H1. simpl.
        apply list_lookup_insert_eq. rewrite length_app. simpl. unfold n. lia.
      * reflexivity.
      * reflexivity.
    + apply (consistent_post_leave n fresh_transport); auto.
Qed.

(** X12.  As long as no request is suspended while another one runs,
    every run of POST, DELETE and transport closures keeps the registry
    sound: each registered id is non-empty and names an open transport
    that carries this very id and has the closure callback installed. *)
Theorem X12_atomic_runs_keep_registry_sound s :
  http_reachable s -> consistent s /\ registered_open s.
Proof.
  intros Hr. assert (Hc : consistent s); [|split; [exact Hc|]].
  - induction Hr as [|s s' _ IH Hstep]; [apply consistent_initial|].
    destruct Hstep as [req uuid s|req s|t s].
    + apply consistent_post_mcp, IH.
    + apply consistent_delete_mcp, IH.
    + apply consistent_close, IH.
  - apply consistent_registered_open, Hc.
Qed.

Lemma X12_atomic_runs_keep_registry_sound_witness :
  consistent (delete_mcp (bearing "S")
                (post_mcp anonymous (Some "S") Http.initial)).2.
Proof.
  refine (proj1 (X12_atomic_runs_keep_registry_sound _ _)).
  eapply http_reachable_step; [eapply http_reachable_step;
    [apply http_reachable_initial|]|].
  - apply (http_post anonymous (Some "S")).
  - apply (http_delete (bearing "S")).
Defined.

End RouteProperties.

(** ** Properties of the bridge *)

Section BridgeProperties.

Import Runs.

Implicit Types (s : Bridge.state) (ws : handle) (v : value) (l : listener)
  (ls : list listener) (n : nat) (x : Z) (src : source) (d : frame)
  (env : option string).

Lemma BRIDGE_KEY_nonempty env : BRIDGE_KEY env <> "".
Proof.
  unfold BRIDGE_KEY. destruct env as [k|]; [|discriminate].
  destruct (String.eqb k "") eqn:E; [discriminate|].
  apply String.eqb_neq. exact E.
Qed.

(** X13.  A connection that does not present the bridge key never becomes
    the bridge and never evicts the current one: [localBridge] and every
    other socket stay as they were, and the new socket is left closing with
    no listener of the program on it.  The key is never the empty string,
    so a missing or empty header is always refused. *)
Theorem X13_wrong_key_is_refused env ws (key : option string) s :
  key <> Some (BRIDGE_KEY env) ->
  localBridge (accept env ws key s) = localBridge s /\
  sockets (accept env ws key s) !! ws =
    Some {| readyState := 2; message_listeners := [];
            close_listener := false; sent := [] |} /\
  (forall ws', ws <> ws' ->
     sockets (accept env ws key s) !! ws' = sockets s !! ws') /\
  promises (accept env ws key s) = promises s /\
  None <> Some (BRIDGE_KEY env) /\ Some "" <> Some (BRIDGE_KEY env).
Proof.
  intros Hkey. unfold accept, connection.
  destruct (decide (key = Some (BRIDGE_KEY env))) as [|_]; [contradiction|].
  unfold ws_close. simpl. split; [reflexivity|]. split; [|split; [|split]].
  - rewrite lookup_alter_eq, lookup_insert_eq. reflexivity.
  - intros ws' Hne. rewrite lookup_alter_ne, lookup_insert_ne by exact Hne.
    reflexivity.
  - reflexivity.
  - split; [discriminate|]. intros [= H]. symmetry in H.
    revert H. apply BRIDGE_KEY_nonempty.
Qed.

Lemma X13_wrong_key_is_refused_witness :
  localBridge (accept None 1 (Some "guess") attached) = Some 0.
Proof.
  refine (proj1 (X13_wrong_key_is_refused None 1 (Some "guess") attached _)).
  discriminate.
Defined.

(** X14.  A connection with the right key becomes the bridge at once,
    whatever was attached before, and nothing else changes: the socket it
    displaces is neither closed nor told, it keeps its listeners, and the
    calls in flight keep their promises and timers. *)
Theorem X14_attach_supersedes_silently env ws s :
  localBridge (accept env ws (Some (BRIDGE_KEY env)) s) = Some ws /\
  sockets (accept env ws (Some (BRIDGE_KEY env)) s) !! ws =
    Some {| readyState := 1; message_listeners := [OnMessage];
            close_listener := true; sent := [] |} /\
  (forall ws', ws <> ws' ->
     sockets (accept env ws (Some (BRIDGE_KEY env)) s) !! ws'
     = sockets s !! ws') /\
  promises (accept env ws (Some (BRIDGE_KEY env)) s) = promises s /\
  timers (accept env ws (Some (BRIDGE_KEY env)) s) = timers s.
Proof.
  unfold accept, connection.
  destruct (decide (Some (BRIDGE_KEY env) = Some (BRIDGE_KEY env)))
    as [_|]; [|contradiction].
  unfold on_message. simpl. split; [reflexivity|]. split; [|split].
  - rewrite !lookup_alter_eq, lookup_insert_eq. reflexivity.
  - intros ws' Hne.
    rewrite !lookup_alter_ne, lookup_insert_ne by exact Hne. reflexivity.
  - split; reflexivity.
Qed.

(** *** What one listener can change *)

(** The shape of a listener run that completes: either nothing changed, or
    it was a handler that removed itself from the socket that is attached
    now, cleared its timer and tried to resolve its promise. *)
Lemma run_listener_cases l d s s' :
  run_listener l d s = Normal s' ->
  s' = s \/
  exists n x ws val,
    l = Handler n x /\ localBridge s = Some ws /\
    s' = resolve n val (clearTimeout n (removeListener ws (Handler n x) s)).
Proof.
  destruct l as [|n x]; unfold run_listener.
  - intros H. apply on_message_body_state in H. left. exact H.
  - unfold handler. destruct (JSON_parse d) as [msg|]; [|discriminate].
    rewrite bind_Normal. destruct (get msg "id") as [mid|]; [|discriminate].
    rewrite bind_Normal.
    destruct (strict_equals mid (VNum x)); [|intros [= <-]; left; reflexivity].
    destruct (localBridge s) as [ws|]; [|discriminate].
    destruct (get msg "result") as [r|]; [|discriminate]. rewrite bind_Normal.
    destruct (get msg "error") as [e|]; [|discriminate]. rewrite bind_Normal.
    intros [= <-]. right. exists n, x, ws, (Js.or r e). auto.
Qed.

Lemma call_listeners_ind_state (P : Bridge.state -> Prop) d :
  (forall l s s', P s -> run_listener l d s = Normal s' -> P s') ->
  forall ls s s', P s -> call_listeners ls d s = Normal s' -> P s'.
Proof.
  intros Hstep. induction ls as [|l ls IH]; intros s s' HP.
  - intros [= <-]. exact HP.
  - rewrite call_listeners_cons.
    destruct (run_listener l d s) as [s1|] eqn:Hrun; [|discriminate].
    rewrite bind_Normal. apply IH. eapply Hstep; eauto.
Qed.

(** X15.  A reply that arrives on a socket other than the attached one
    completes without touching that socket: its handlers, the answering
    one included, all stay registered on it, because the handler removes
    itself from whatever socket is attached when the reply comes. *)
Theorem X15_reply_on_displaced_socket_keeps_handler s s' ws ws0 d :
  localBridge s = Some ws ->
  ws0 <> ws ->
  emit_message ws0 d s = Normal s' ->
  sockets s' !! ws0 = sockets s !! ws0 /\ localBridge s' = Some ws.
Proof.
  intros Hb Hne Hemit. rewrite emit_message_listeners in Hemit.
  apply (call_listeners_ind_state
           (fun s1 => sockets s1 !! ws0 = sockets s !! ws0 /\
                      localBridge s1 = Some ws) d) in Hemit; auto.
  intros l s1 s2 [Hk Hb1] Hrun.
  destruct (run_listener_cases _ _ _ _ Hrun)
    as [->|(n & x & ws1 & val & _ & Hb2 & ->)]; [auto|].
  unfold resolve. rewrite settle_sockets, settle_localBridge. simpl.
  split; [|exact Hb1]. rewrite Hb1 in Hb2. injection Hb2 as <-.
  rewrite lookup_alter_ne by congruence. exact Hk.
Qed.

Lemma X15_reply_on_displaced_socket_keeps_handler_witness :
  exists s',
    emit_message 0 (Json (reply_result 0 (VStr "pong"))) displaced
      = Normal s' /\
    sockets s' !! 0 = sockets displaced !! 0.
Proof.
  destruct (emit_message 0 (Json (reply_result 0 (VStr "pong"))) displaced)
    as [s'|e] eqn:E; [|vm_compute in E; discriminate].
  exists s'. split; [reflexivity|].
  refine (proj1 (X15_reply_on_displaced_socket_keeps_handler
                   displaced s' 1 0 _ _ _ E)).
  - reflexivity.
  - discriminate.
Defined.

Lemma run_listener_unattached n x v s :
  nullish v = false -> answers v (Handler n x) = true ->
  localBridge s = None ->
  run_listener (Handler n x) (Json v) s = Throw TypeError.
Proof.
  intros Hv E Hb. unfold run_listener, handler.
  change (JSON_parse (Json v)) with (Normal v).
  repeat first [ rewrite bind_Normal | rewrite (get_nonnull _ _ Hv) ].
  unfold answers in E. rewrite E, Hb. reflexivity.
Qed.

Lemma handler_skip n x v s :
  nullish v = false -> answers v (Handler n x) = false ->
  run_listener (Handler n x) (Json v) s = Normal s.
Proof.
  intros Hv E. unfold run_listener, handler.
  change (JSON_parse (Json v)) with (Normal v).
  repeat first [ rewrite bind_Normal | rewrite (get_nonnull _ _ Hv) ].
  unfold answers in E. rewrite E. reflexivity.
Qed.

(** X16.  When no socket is attached, a reply that a pending handler
    answers does not settle anything: the emit ends in a [TypeError],
    thrown where the handler reads [localBridge.removeListener]. *)
Theorem X16_reply_with_no_bridge_throws s ws0 v l :
  localBridge s = None ->
  nullish v = false ->
  l ∈ listeners_of ws0 s ->
  answers v l = true ->
  emit_message ws0 (Json v) s = Throw TypeError.
Proof.
  intros Hb Hv Hin Hans. rewrite emit_message_listeners.
  induction (listeners_of ws0 s) as [|l0 ls IH];
    [apply elem_of_nil in Hin; contradiction|].
  rewrite call_listeners_cons. destruct (answers v l0) eqn:E.
  - destruct l0 as [|n x]; [discriminate|].
    rewrite (run_listener_unattached _ _ _ _ Hv E Hb). reflexivity.
  - assert (Hin' : l ∈ ls).
    { apply elem_of_cons in Hin as [->|Hin]; [congruence|exact Hin]. }
    destruct l0 as [|m y].
    + unfold run_listener.
      destruct (on_message_outcome v s) as [-> | ->]; [|reflexivity].
      rewrite bind_Normal. apply IH, Hin'.
    + rewrite (handler_skip _ _ _ _ Hv E), bind_Normal. apply IH, Hin'.
Qed.

Lemma X16_reply_with_no_bridge_throws_witness :
  emit_message 0 (Json (reply_result 0 (VStr "pong"))) detached
  = Throw TypeError.
Proof.
  apply (X16_reply_with_no_bridge_throws detached 0 _ (Handler 0 0)).
  - reflexivity.
  - reflexivity.
  - assert (E : listeners_of 0 detached = [OnMessage; Handler 0 0])
      by (vm_compute; reflexivity).
    rewrite E. right. left.
  - reflexivity.
Defined.

Lemma run_listener_timers l d s s' :
  run_listener l d s = Normal s' ->
  forall tm, tm ∈ timers s' -> tm ∈ timers s.
Proof.
  intros Hrun tm.
  destruct (run_listener_cases _ _ _ _ Hrun)
    as [->|(n & x & ws & val & _ & _ & ->)]; [auto|].
  unfold resolve. rewrite settle_timers. simpl.
  intros H. apply list_elem_of_filter in H as [_ H]. exact H.
Qed.

(** X17.  A reply that the handler of a call answers disarms the timer of
    that call: when the emit has completed, no timer of the call is left,
    so the timeout can no longer fire for it. *)
Theorem X17_reply_clears_timer s s' ws0 n x v :
  Handler n x ∈ listeners_of ws0 s ->
  get_opt v "id" = VNum x ->
  emit_message ws0 (Json v) s = Normal s' ->
  forall dl, (n, dl) ∉ timers s'.
Proof.
  intros Hin Hid Hemit. pose proof (id_nonnull _ _ Hid) as Hv.
  rewrite emit_message_listeners in Hemit.
  destruct (list_elem_of_split _ _ Hin) as (pre & post & Hsplit).
  rewrite Hsplit, call_listeners_app in Hemit.
  destruct (call_listeners pre (Json v) s) as [s1|] eqn:Hpre; [|discriminate].
  rewrite bind_Normal, call_listeners_cons in Hemit.
  destruct (run_listener (Handler n x) (Json v) s1) as [s2|] eqn:Hrun;
    [|discriminate].
  rewrite bind_Normal in Hemit.
  assert (H2 : forall dl, (n, dl) ∉ timers s2).
  { destruct (localBridge s1) as [ws|] eqn:Hb.
    - rewrite (run_listener_answer _ _ _ _ ws Hv Hid Hb) in Hrun.
      injection Hrun as <-. intros dl. unfold resolve.
      rewrite settle_timers. simpl. intros H.
      apply list_elem_of_filter in H as [H _]. apply H. reflexivity.
    - rewrite (run_listener_unattached n x v s1 Hv) in Hrun;
        [discriminate| |exact Hb].
      apply answers_handler. exact Hid. }
  refine (call_listeners_ind_state
            (fun s0 => forall dl, (n, dl) ∉ timers s0) (Json v) _
            post s2 s' H2 Hemit).
  intros l s3 s4 H3 Hrun' dl Hdl. apply (H3 dl).
  eapply run_listener_timers; eauto.
Qed.

Lemma X17_reply_clears_timer_witness :
  exists s',
    emit_message 0 (Json (reply_result 0 (VStr "pong"))) one_pending
      = Normal s' /\
    timers one_pending = [(0, 15000%Z)] /\ (0, 15000%Z) ∉ timers s'.
Proof.
  destruct (emit_message 0 (Json (reply_result 0 (VStr "pong"))) one_pending)
    as [s'|e] eqn:E; [|vm_compute in E; discriminate].
  exists s'. split; [reflexivity|]. split; [vm_compute; reflexivity|].
  apply (X17_reply_clears_timer one_pending s' 0 0 0 _) with (3 := E).
  - assert (El : listeners_of 0 one_pending = [OnMessage; Handler 0 0])
      by (vm_compute; reflexivity).
    rewrite El. right. left.
  - reflexivity.
Defined.

(** *** Numbering of calls *)

Lemma settle_domain n m (o : settlement) s :
  is_Some (promises (settle n o s) !! m) -> is_Some (promises s !! m).
Proof.
  unfold settle. destruct (promises s !! n) as [[]|] eqn:Hn; auto. simpl.
  destruct (decide (n = m)) as [<-|Hne].
  - intros _. rewrite Hn. eauto.
  - rewrite lookup_insert_ne by exact Hne. auto.
Qed.

Lemma settle_keeps n m (o o' : settlement) s :
  promises s !! n = Some o -> o <> Pending ->
  promises (settle m o' s) !! n = Some o.
Proof.
  intros Hp Ho. destruct (decide (m = n)) as [->|Hne].
  - rewrite settle_settled; [exact Hp|congruence].
  - rewrite settle_other by exact Hne. exact Hp.
Qed.

Lemma numbered_initial : numbered Bridge.initial.
Proof.
  split.
  - intros n [o H]. simpl in H. rewrite lookup_empty in H. discriminate.
  - intros n dl H. apply elem_of_nil in H. contradiction.
Qed.

Lemma numbered_run_listener l d s s' :
  numbered s -> run_listener l d s = Normal s' -> numbered s'.
Proof.
  intros [Hp Ht] Hrun.
  destruct (run_listener_cases _ _ _ _ Hrun)
    as [->|(n & x & ws & val & _ & _ & ->)]; [split; assumption|].
  unfold resolve. split.
  - intros m H. rewrite settle_next. apply settle_domain in H. apply Hp, H.
  - intros m dl H. rewrite settle_next. rewrite settle_timers in H.
    simpl in H. apply list_elem_of_filter in H as [_ H]. apply (Ht _ _ H).
Qed.

Lemma numbered_timer_fire src m s : numbered s -> numbered (timer_fire src m s).
Proof.
  intros [Hp Ht]. unfold timer_fire, reject. split.
  - intros n H. rewrite settle_next. apply settle_domain in H. apply Hp, H.
  - intros n dl H. rewrite settle_next. rewrite settle_timers in H.
    simpl in H. apply list_elem_of_filter in H as [_ H]. apply (Ht _ _ H).
Qed.

Lemma numbered_fire_all src (tms : list (nat * Z)) : forall s,
  numbered s -> numbered (foldl (fun acc tm => timer_fire src tm.1 acc) s tms).
Proof.
  induction tms as [|tm tms IH]; intros s H; [exact H|].
  simpl. apply IH, numbered_timer_fire, H.
Qed.

Lemma numbered_local_bridge src (args : value) s :
  numbered s -> numbered (local_bridge src args s).2.
Proof.
  intros [Hp Ht]. unfold local_bridge.
  destruct (localBridge s) as [ws|]; [|split; assumption].
  destruct (localBridge_readyState s) as [[|[]|]|]; try (split; assumption).
  simpl. split.
  - intros n H. simpl in H |- *.
    destruct (decide (next s = n)) as [<-|Hne]; [lia|].
    rewrite lookup_insert_ne in H by exact Hne. apply Hp in H. lia.
  - intros n dl H. simpl in H |- *. apply elem_of_app in H as [H|H].
    + apply Ht in H. lia.
    + apply list_elem_of_singleton in H. injection H as -> _. lia.
Qed.

Lemma accept_rest env ws (key : option string) s :
  promises (accept env ws key s) = promises s /\
  timers (accept env ws key s) = timers s /\
  next (accept env ws key s) = next s /\
  clock (accept env ws key s) = clock s.
Proof.
  unfold accept, connection.
  destruct (decide (key = Some (BRIDGE_KEY env))); repeat split.
Qed.

Lemma emit_close_rest ws s :
  promises (emit_close ws s) = promises s /\
  timers (emit_close ws s) = timers s /\
  next (emit_close ws s) = next s /\
  clock (emit_close ws s) = clock s.
Proof.
  unfold emit_close, on_close.
  destruct (sockets s !! ws) as [k|]; [|repeat split].
  destruct (close_listener k); [|repeat split]. simpl.
  destruct (decide (localBridge s = Some ws)); repeat split.
Qed.

Lemma numbered_step env src s s' : step env src s s' -> numbered s -> numbered s'.
Proof.
  intros Hstep Hn.
  destruct Hstep as [s ws key _|s ws|s ws d s' Hemit|s args|s t].
  - destruct (accept_rest env ws key s) as (Hp & Ht & Hx & _).
    unfold numbered. rewrite Hp, Ht, Hx. exact Hn.
  - destruct (emit_close_rest ws s) as (Hp & Ht & Hx & _).
    unfold numbered. rewrite Hp, Ht, Hx. exact Hn.
  - rewrite emit_message_listeners in Hemit.
    refine (call_listeners_ind_state numbered d _ _ s s' Hn Hemit).
    intros l s1 s2 H1 Hrun. eapply numbered_run_listener; eauto.
  - apply numbered_local_bridge, Hn.
  - unfold advance. apply numbered_fire_all.
    destruct Hn as [Hp Ht]. split; assumption.
Qed.

Lemma reachable_numbered env src s : reachable env src s -> numbered s.
Proof.
  induction 1 as [|s s' _ IH Hstep]; [apply numbered_initial|].
  eapply numbered_step; eauto.
Qed.

Lemma fire_all_keeps src n (o : settlement) (tms : list (nat * Z)) : forall s,
  promises s !! n = Some o -> o <> Pending ->
  promises (foldl (fun acc tm => timer_fire src tm.1 acc) s tms) !! n = Some o.
Proof.
  induction tms as [|tm tms IH]; intros s Hp Ho; [exact Hp|].
  simpl. apply IH; [|exact Ho]. unfold timer_fire, reject.
  apply settle_keeps; [exact Hp|exact Ho].
Qed.

(** X18.  A call is settled once and for all: in a reachable state, once
    its promise is resolved or rejected, no turn of the event loop (a
    late or duplicate reply, the timer, a connection, a close, another
    call) changes the outcome. *)
Theorem X18_settled_for_good env src s s' n (o : settlement) :
  reachable env src s ->
  step env src s s' ->
  promises s !! n = Some o ->
  o <> Pending ->
  promises s' !! n = Some o.
Proof.
  intros Hreach Hstep Hp Ho.
  pose proof (reachable_numbered _ _ _ Hreach) as [Hnum _].
  destruct Hstep as [s ws key _|s ws|s ws d s' Hemit|s args|s t].
  - rewrite (proj1 (accept_rest env ws key s)). exact Hp.
  - rewrite (proj1 (emit_close_rest ws s)). exact Hp.
  - rewrite emit_message_listeners in Hemit.
    refine (call_listeners_ind_state
              (fun s0 => promises s0 !! n = Some o) d _ _ s s' Hp Hemit).
    intros l s1 s2 H1 Hrun.
    destruct (run_listener_cases _ _ _ _ Hrun)
      as [->|(m & x & ws1 & val & _ & _ & ->)]; [exact H1|].
    unfold resolve. apply settle_keeps; [exact H1|exact Ho].
  - unfold local_bridge. destruct (localBridge s) as [ws|]; [|exact Hp].
    destruct (localBridge_readyState s) as [[|[]|]|]; try exact Hp.
    simpl. rewrite lookup_insert_ne; [exact Hp|].
    assert (n < next s) by (apply Hnum; rewrite Hp; eauto). lia.
  - unfold advance. apply fire_all_keeps; [exact Hp|exact Ho].
Qed.

Lemma X18_settled_for_good_witness :
  promises (advance server_js 20000 one_pending) !! 0
  = Some (Rejected (timeout_error server_js)) /\
  promises (accept None 1 key_ok (advance server_js 20000 one_pending)) !! 0
  = Some (Rejected (timeout_error server_js)).
Proof.
  assert (E : promises (advance server_js 20000 one_pending) !! 0
              = Some (Rejected (timeout_error server_js)))
    by (vm_compute; reflexivity).
  split; [exact E|].
  apply (X18_settled_for_good None server_js
           (advance server_js 20000 one_pending)).
  - eapply reachable_step; [apply one_pending_reachable|].
    apply step_advance.
  - apply step_accept. vm_compute. reflexivity.
  - exact E.
  - discriminate.
Defined.

(** *** The timeout *)





(** *** What is sent *)

Lemma accept_other env ws ws' (key : option string) s :
  ws <> ws' -> sockets (accept env ws key s) !! ws' = sockets s !! ws'.
Proof.
  intros Hne. unfold accept, connection, ws_close, on_message.
  destruct (decide (key = Some (BRIDGE_KEY env))); simpl;
    rewrite ?lookup_alter_ne, lookup_insert_ne by exact Hne; reflexivity.
Qed.

(** X20.  What has been sent on a socket is never taken back or
    reordered: every turn of the event loop leaves the sequence of sent
    messages of each existing socket as it was, except that a call appends
    exactly its own message to the attached socket. *)
Theorem X20_sent_only_grows env src s s' ws (k : socket) :
  step env src s s' ->
  sockets s !! ws = Some k ->
  exists k', sockets s' !! ws = Some k' /\
    (sent k' = sent k \/
     exists args, localBridge s = Some ws /\
       sent k' = sent k ++ [Stringify (wire src (clock s) args)]).
Proof.
  intros Hstep Hk.
  destruct Hstep as [s ws0 key Hfresh|s ws0|s ws0 d s' Hemit|s args|s t].
  - exists k. split; [|left; reflexivity].
    rewrite accept_other; [exact Hk|]. intros ->. congruence.
  - assert (Hs : sockets (emit_close ws0 s) =
                 alter (set_readyState 3) ws0 (sockets s)).
    { unfold emit_close, on_close.
      destruct (sockets s !! ws0) as [k0|]; [|reflexivity].
      destruct (close_listener k0); [|reflexivity]. simpl.
      destruct (decide (localBridge s = Some ws0)); reflexivity. }
    rewrite Hs, lookup_alter. destruct (decide (ws0 = ws)) as [->|_].
    + rewrite Hk. simpl. eexists. split; [reflexivity|]. left. reflexivity.
    + exists k. auto.
  - rewrite emit_message_listeners in Hemit.
    assert (H : exists k', sockets s' !! ws = Some k' /\ sent k' = sent k).
    { refine (call_listeners_ind_state
                (fun s0 => exists k', sockets s0 !! ws = Some k' /\
                                      sent k' = sent k) d _ _ s s' _ Hemit);
        [|exists k; auto].
      intros l s1 s2 (k1 & Hk1 & Hsent) Hrun.
      destruct (run_listener_cases _ _ _ _ Hrun)
        as [->|(m & x & ws1 & val & _ & _ & ->)]; [exists k1; auto|].
      unfold resolve. rewrite settle_sockets. simpl. rewrite lookup_alter.
      destruct (decide (ws1 = ws)) as [->|_]; [|exists k1; auto].
      rewrite Hk1. simpl. eexists. split; [reflexivity|]. exact Hsent. }
    destruct H as (k' & Hk' & Hsent). exists k'. auto.
  - unfold local_bridge. destruct (localBridge s) as [wb|] eqn:Hb;
      [|exists k; auto].
    destruct (localBridge_readyState s) as [[|[]|]|];
      try solve [exists k; split; [exact Hk|left; reflexivity]].
    simpl. destruct (decide (wb = ws)) as [->|Hne].
    + rewrite !lookup_alter_eq, Hk. simpl. eexists. split; [reflexivity|].
      right. exists args. split; reflexivity.
    + rewrite !lookup_alter_ne by exact Hne. exists k. auto.
  - rewrite advance_sockets. exists k. auto.
Qed.

Lemma X20_sent_only_grows_witness :
  exists k', sockets one_pending !! 0 = Some k' /\
    (sent k' = [] \/
     exists args, localBridge attached = Some 0 /\
       sent k' = [] ++ [Stringify (wire server_js (clock attached) args)]).
Proof.
  apply (X20_sent_only_grows None server_js attached one_pending 0
           (mkSocket 1 [OnMessage] true [])).
  - apply (step_call None server_js attached ping).
  - vm_compute. reflexivity.
Defined.

End BridgeProperties.
